(** * Meetings API service: a shallow embedding of [src/server.js]

    The service is an Express application over two Mongoose collections,
    [User] and [Meeting].  The development below embeds

    - the JSON values of a request body,
    - the two collections as finite maps keyed by [_id],
    - the Mongoose calls the handlers make, as computations in a small
      state-and-exception monad (an [await] that rejects is a [Throw]),
    - the express-validator chains [validateMeeting] / [validateUser] and
      [handleValidationErrors],
    - every route handler, and the route table in registration order,
    - the application from its first middleware on: [cors()],
      [express.json()], the routes with the decoding of their parameters,
      the error middleware and the fallback,

    and proves properties of the responses and of the store.  What the
    external packages (express-validator, the JavaScript [Date] constructor,
    Mongoose's schema casts) compute on a single value is a parameter of the
    development, gathered in the record [Library]; the theorems hold for
    every such library, and a small reference instance is used to run the
    handlers on concrete requests. *)

From Stdlib Require Import ZArith Ascii.
From stdpp Require Import base strings list gmap sorting.

#[local] Set Warnings "-register-all".

(** ** JSON values and request bodies *)

Inductive json : Type :=
  | JNull
  | JBool (b : bool)
  | JNum (n : Z)
  | JStr (s : string)
  | JArr (xs : list json)
  | JObj (kvs : list (string * json)).

(** [req.body] after [express.json()]: an object, as its key/value pairs. *)
Definition Body : Type := list (string * json).

(** [req.body.k]; [None] is JavaScript's [undefined]. *)
Fixpoint prop (o : Body) (k : string) : option json :=
  match o with
  | [] => None
  | (k', v) :: o' => if decide (k = k') then Some v else prop o' k
  end.

(** The top-level paths of the two schemas.  Under the default strict mode
    a key that is a path of neither schema, or of the other schema only, is
    either dropped or interpreted by Mongoose: [_id], the timestamps, [__v],
    a dotted path, an update operator such as [$set] or [$push]. *)
Definition meetingPaths : list string :=
  ["title"; "description"; "startDate"; "endDate"; "location"; "organizer";
   "attendees"].

Definition userPaths : list string := ["name"; "email"].

(** The keys of a body that are a path of neither schema. *)
Definition extraKeys (b : Body) : Body :=
  filter (λ kv, kv.1 ∉ meetingPaths ++ userPaths) b.

(** [Array.isArray(v)] *)
Definition isArray (v : json) : bool :=
  match v with JArr _ => true | _ => false end.

(** ** Documents *)

(** A Mongo [ObjectId] is a 12-byte value; only its identity matters here. *)
Abbreviation ObjectId := N.

(** [userSchema], with the timestamps added by [{ timestamps: true }]. *)
Record User : Type := mkUser {
  name : string;
  email : string;
  userCreatedAt : Z;
  userUpdatedAt : Z
}.

(** [meetingSchema].  Dates are time values (milliseconds since the epoch);
    [organizer] and [attendees] store the referenced ids. *)
Record Meeting : Type := mkMeeting {
  title : string;
  description : option string;
  startDate : Z;
  endDate : Z;
  location : option string;
  organizer : ObjectId;
  attendees : list ObjectId;
  createdAt : Z;
  updatedAt : Z
}.

(** The database: [_id] is the key of each collection, hence unique. *)
Record Store : Type := mkStore {
  users : gmap ObjectId User;
  meetings : gmap ObjectId Meeting
}.

(** ** The external packages *)

Record Library : Type := mkLibrary {
  (** express-validator checks on one field value ([None] is [undefined]) *)
  notEmpty : option json → bool;
  isISO8601 : option json → bool;
  isMongoId : option json → bool;
  isEmail : option json → bool;
  (** [new Date(v)]: its time value, [None] for an Invalid Date (NaN) *)
  newDate : option json → option Z;
  (** Mongoose schema casts; [None] is a cast failure *)
  castObjectId : json → option ObjectId;
  castString : json → option string;
  castDate : json → option Z;
  (** the [trim] and [lowercase] schema setters *)
  trim : string → string;
  toLowerCase : string → string;
  (** What Mongoose makes of the keys of a body that are no top-level path
      of a schema: for [new Meeting(body)] and [new User(body)], how they
      change the document built from the paths; for the update document of
      [findByIdAndUpdate], how its operators and dotted paths change the
      stored document.  [None]: Mongoose or the server rejects the body. *)
  meetingExtras : Body → option (Meeting → Meeting);
  userExtras : Body → option (User → User);
  updateExtras : Body → option (Meeting → Meeting);
  (** [decodeURIComponent], which Express applies to what a route parameter
      captures; [None] is a URIError *)
  decodeURIComponent : string → option string
}.

(** What the environment supplies to one request: the clock read by
    [new Date()] and by the timestamps plugin, and the [_id] of the document
    that [new Model(req.body)] creates (generated, unless the body brings
    its own). *)
Record Ambient : Type := mkAmbient {
  now : Z;
  generatedId : ObjectId
}.

(** ** Exceptions and the handler monad *)

Inductive Exn : Type :=
  | CastError (path : string)
  | ValidationError
  | MongoServerError (code : N).

Inductive Outcome (A : Type) : Type :=
  | Ok (a : A)
  | Throw (e : Exn).
Arguments Ok {A} a.
Arguments Throw {A} e.

(** A computation reads and writes the store and either returns or throws. *)
Definition M (A : Type) : Type := Store → Outcome A * Store.

Definition ret {A} (a : A) : M A := λ st, (Ok a, st).

Definition throw {A} (e : Exn) : M A := λ st, (Throw e, st).

Definition bind {A B} (c : M A) (k : A → M B) : M B :=
  λ st, match c st with
        | (Ok a, st') => k a st'
        | (Throw e, st') => (Throw e, st')
        end.

Definition getStore : M Store := λ st, (Ok st, st).

Definition putStore (st' : Store) : M unit := λ _, (Ok tt, st').

Notation "'await' x ⇐ c ;; k" := (bind c (λ x, k))
  (at level 10, x name, c at level 99, k at level 200,
   format "'[v' 'await'  x  ⇐  c  ;;  '/' k ']'").

(** [for (const x of xs) ys.push(f(x))] where [f] may throw. *)
Fixpoint castAll {A B} (f : A → option B) (xs : list A) : option (list B) :=
  match xs with
  | [] => Some []
  | x :: xs' =>
      match f x, castAll f xs' with
      | Some y, Some ys => Some (y :: ys)
      | _, _ => None
      end
  end.

Section Service.

Context (L : Library).

(** ** Mongoose calls *)

(** The cast of a query's [_id]; a failure rejects the query. *)
Definition castId (v : json) : M ObjectId :=
  match castObjectId L v with
  | Some o => ret o
  | None => throw (CastError "_id")
  end.

(** [User.findById(v)] *)
Definition User_findById (v : option json) : M (option (ObjectId * User)) :=
  match v with
  | None => ret None
  | Some j =>
      await o ⇐ castId j ;;
      await st ⇐ getStore ;;
      ret (pair o <$> users st !! o)
  end.

(** [Meeting.findById(o)] for an id that is already an [ObjectId]. *)
Definition Meeting_findById_oid (o : ObjectId) : M (option (ObjectId * Meeting)) :=
  await st ⇐ getStore ;;
  ret (pair o <$> meetings st !! o).

(** [Meeting.findById(v)] *)
Definition Meeting_findById (v : json) : M (option (ObjectId * Meeting)) :=
  await o ⇐ castId v ;;
  Meeting_findById_oid o.

(** The cast of one entry of an [$in] list on [_id]: [null] stays [null],
    which is the [_id] of no document; any other value is cast to an id. *)
Definition castIn (j : json) : option (option ObjectId) :=
  match j with
  | JNull => Some None
  | _ => Some <$> castObjectId L j
  end.

(** [User.countDocuments({ _id: { $in: xs } })]: every entry of [xs] is cast,
    then the users whose [_id] is among the cast entries are counted. *)
Definition User_countDocuments_in (xs : list json) : M nat :=
  match castAll castIn xs with
  | None => throw (CastError "_id")
  | Some ids =>
      await st ⇐ getStore ;;
      ret (length (filter (λ o, Some o ∈ ids) (map_to_list (users st)).*1))
  end.

(** A schema path that is not required: absent and [null] store nothing. *)
Definition castOptional {A} (cast : json → option A) (v : option json)
    : option (option A) :=
  match v with
  | None | Some JNull => Some None
  | Some j => Some <$> cast j
  end.

(** A required schema path. *)
Definition castRequired {A} (cast : json → option A) (v : option json)
    : option A :=
  match v with
  | None | Some JNull => None
  | Some j => cast j
  end.

(** A [String] path with [trim: true]. *)
Definition castTrimmed (j : json) : option string :=
  trim L <$> castString L j.

(** A required [String] path: the empty string does not satisfy [required]. *)
Definition nonEmpty (s : string) : option string :=
  if decide (s = EmptyString) then None else Some s.

(** The [attendees] path, an array of [ObjectId]; a value that is not an
    array is cast as a one-element array. *)
Definition castAttendees (j : json) : option (list ObjectId) :=
  match j with
  | JArr xs => castAll (castObjectId L) xs
  | _ => castAll (castObjectId L) [j]
  end.

(** What the keys of [b] beyond the schema paths do, by [extras]; without
    such keys there is nothing to do. *)
Definition extrasOf {A} (extras : Body → option (A → A)) (b : Body)
    : option (A → A) :=
  match extraKeys b with
  | [] => Some (λ x, x)
  | _ :: _ => extras b
  end.

(** The keys beyond the schema paths reach the optional paths and the
    timestamps of a new meeting; the four required paths are those of the
    body. *)
Definition withMeetingExtras (f : Meeting → Meeting) (m : Meeting) : Meeting :=
  mkMeeting (title m) (description (f m)) (startDate m) (endDate m)
            (location (f m)) (organizer m) (attendees (f m))
            (createdAt (f m)) (updatedAt (f m)).

(** [new Meeting(body)] followed by the validation that [save()] runs;
    [None] is a validation failure. *)
Definition newMeeting (a : Ambient) (b : Body) : option Meeting :=
  t ← castRequired castTrimmed (prop b "title") ≫= nonEmpty;
  d ← castOptional castTrimmed (prop b "description");
  s ← castRequired (castDate L) (prop b "startDate");
  e ← castRequired (castDate L) (prop b "endDate");
  l ← castOptional castTrimmed (prop b "location");
  o ← castRequired (castObjectId L) (prop b "organizer");
  ats ← match prop b "attendees" with
        | None => Some []
        | Some j => castAttendees j
        end;
  f ← extrasOf (meetingExtras L) b;
  Some (withMeetingExtras f (mkMeeting t d s e l o ats (now a) (now a))).

(** [meeting.save()] of a new document; returns [savedMeeting._id]. *)
Definition Meeting_save (a : Ambient) (b : Body) : M ObjectId :=
  match newMeeting a b with
  | None => throw ValidationError
  | Some m =>
      await st ⇐ getStore ;;
      match meetings st !! generatedId a with
      | Some _ => throw (MongoServerError 11000%N)
      | None =>
          await _ ⇐ putStore (mkStore (users st) (<[generatedId a := m]> (meetings st))) ;;
          ret (generatedId a)
      end
  end.

(** The update document after casting.  The top-level paths of the body
    are a [$set]: one entry per schema path, [None] where the body does not
    mention the path.  [others] is what the remaining keys of the body
    (operators, dotted paths) do to the stored document. *)
Record MeetingUpdate : Type := mkMeetingUpdate {
  setTitle : option string;
  setDescription : option (option string);
  setStartDate : option Z;
  setEndDate : option Z;
  setLocation : option (option string);
  setOrganizer : option ObjectId;
  setAttendees : option (list ObjectId);
  others : Meeting → Meeting
}.

(** Cast of one path of the update: absent paths are left out. *)
Definition castSet {A} (cast : option json → option A) (v : option json)
    : option (option A) :=
  match v with
  | None => Some None
  | Some _ => Some <$> cast v
  end.

(** Cast of the update, with the update validators of [runValidators]. *)
Definition castUpdate (b : Body) : option MeetingUpdate :=
  t ← castSet (λ v, castRequired castTrimmed v ≫= nonEmpty) (prop b "title");
  d ← castSet (castOptional castTrimmed) (prop b "description");
  s ← castSet (castRequired (castDate L)) (prop b "startDate");
  e ← castSet (castRequired (castDate L)) (prop b "endDate");
  l ← castSet (castOptional castTrimmed) (prop b "location");
  o ← castSet (castRequired (castObjectId L)) (prop b "organizer");
  ats ← castSet (λ v, v ≫= castAttendees) (prop b "attendees");
  f ← extrasOf (updateExtras L) b;
  Some (mkMeetingUpdate t d s e l o ats f).

(** The update applied to the stored document: the timestamps plugin sets
    [updatedAt], the remaining keys act, and a path given at the top level
    of the body takes the body's value (it overrides a [$set] of the same
    path; any other operator on it is a conflict, a rejected body). *)
Definition applyUpdate (u : MeetingUpdate) (t : Z) (old : Meeting) : Meeting :=
  let m :=
    others u (mkMeeting (title old) (description old) (startDate old)
                (endDate old) (location old) (organizer old) (attendees old)
                (createdAt old) t) in
  mkMeeting (default (title m) (setTitle u))
            (default (description m) (setDescription u))
            (default (startDate m) (setStartDate u))
            (default (endDate m) (setEndDate u))
            (default (location m) (setLocation u))
            (default (organizer m) (setOrganizer u))
            (default (attendees m) (setAttendees u))
            (createdAt m) (updatedAt m).

(** [Meeting.findByIdAndUpdate(id, body, { new: true, runValidators: true })] *)
Definition Meeting_findByIdAndUpdate (a : Ambient) (id : json) (b : Body)
    : M (option (ObjectId * Meeting)) :=
  await o ⇐ castId id ;;
  match castUpdate b with
  | None => throw ValidationError
  | Some u =>
      await st ⇐ getStore ;;
      match meetings st !! o with
      | None => ret None
      | Some old =>
          let m := applyUpdate u (now a) old in
          await _ ⇐ putStore (mkStore (users st) (<[o := m]> (meetings st))) ;;
          ret (Some (o, m))
      end
  end.

(** [Meeting.findByIdAndDelete(id)] *)
Definition Meeting_findByIdAndDelete (id : json) : M (option (ObjectId * Meeting)) :=
  await o ⇐ castId id ;;
  await st ⇐ getStore ;;
  match meetings st !! o with
  | None => ret None
  | Some m =>
      await _ ⇐ putStore (mkStore (users st) (delete o (meetings st))) ;;
      ret (Some (o, m))
  end.

(** ** Queries over the meetings collection *)

(** [.sort({ startDate: 1 })] *)
Definition byStartDate (x y : ObjectId * Meeting) : Prop :=
  (startDate x.2 ≤ startDate y.2)%Z.

#[global] Instance byStartDate_dec : RelDecision byStartDate.
Proof. intros x y. unfold byStartDate. apply _. Defined.

(** [Meeting.find().sort({ startDate: 1 })] *)
Definition Meeting_find_all : M (list (ObjectId * Meeting)) :=
  await st ⇐ getStore ;;
  ret (merge_sort byStartDate (map_to_list (meetings st))).

(** The filter [{ $or: [{ organizer: u }, { attendees: u }] }]: [organizer]
    equals [u], or the array [attendees] holds [u]. *)
Definition involves (u : ObjectId) (x : ObjectId * Meeting) : Prop :=
  organizer x.2 = u ∨ u ∈ attendees x.2.

#[global] Instance involves_dec u x : Decision (involves u x).
Proof. unfold involves. apply _. Defined.

(** [Meeting.find({ $or: [...] }).sort({ startDate: 1 })]; the user id of
    the filter is cast to the type of the two paths. *)
Definition Meeting_find_byUser (userId : json) : M (list (ObjectId * Meeting)) :=
  match castObjectId L userId with
  | None => throw (CastError "organizer")
  | Some u =>
      await st ⇐ getStore ;;
      ret (merge_sort byStartDate (filter (involves u) (map_to_list (meetings st))))
  end.

(** The filter [{ startDate: { $gte: t } }]. *)
Definition startsFrom (t : Z) (x : ObjectId * Meeting) : Prop :=
  (t ≤ startDate x.2)%Z.

#[global] Instance startsFrom_dec t x : Decision (startsFrom t x).
Proof. unfold startsFrom. apply _. Defined.

(** [Meeting.find({ startDate: { $gte: t } }).sort({ startDate: 1 }).limit(10)] *)
Definition Meeting_find_upcoming (t : Z) : M (list (ObjectId * Meeting)) :=
  await st ⇐ getStore ;;
  ret (take 10 (merge_sort byStartDate (filter (startsFrom t) (map_to_list (meetings st))))).

(** ** Population *)

(** What [.populate(path, 'name email')] puts in place of an id. *)
Record Summary : Type := mkSummary {
  summaryId : ObjectId;
  summaryName : string;
  summaryEmail : string
}.

(** A meeting with [organizer] and [attendees] populated.  An organizer whose
    user is gone becomes [null]; attendees whose user is gone are dropped. *)
Record Populated : Type := mkPopulated {
  meetingId : ObjectId;
  document : Meeting;
  populatedOrganizer : option Summary;
  populatedAttendees : list Summary
}.

Definition summary (st : Store) (o : ObjectId) : option Summary :=
  (λ u, mkSummary o (name u) (email u)) <$> users st !! o.

Definition populateIn (st : Store) (x : ObjectId * Meeting) : Populated :=
  mkPopulated x.1 x.2 (summary st (organizer x.2)) (omap (summary st) (attendees x.2)).

(** [.populate('organizer', 'name email').populate('attendees', 'name email')] *)
Definition populate (x : ObjectId * Meeting) : M Populated :=
  await st ⇐ getStore ;;
  ret (populateIn st x).

Definition populateAll (xs : list (ObjectId * Meeting)) : M (list Populated) :=
  await st ⇐ getStore ;;
  ret (populateIn st <$> xs).

(** ** Queries over the users collection *)

(** [.sort({ createdAt: -1 })] *)
Definition byCreatedAtDesc (x y : ObjectId * User) : Prop :=
  (userCreatedAt y.2 ≤ userCreatedAt x.2)%Z.

#[global] Instance byCreatedAtDesc_dec : RelDecision byCreatedAtDesc.
Proof. intros x y. unfold byCreatedAtDesc. apply _. Defined.

(** [User.find().sort({ createdAt: -1 })] *)
Definition User_find_all : M (list (ObjectId * User)) :=
  await st ⇐ getStore ;;
  ret (merge_sort byCreatedAtDesc (map_to_list (users st))).

(** [new User(body)] followed by the validation that [save()] runs.  The
    keys beyond the schema paths reach the timestamps (a [createdAt] of the
    body is kept); [name] and [email] are those of the body. *)
Definition newUser (a : Ambient) (b : Body) : option User :=
  n ← castRequired castTrimmed (prop b "name") ≫= nonEmpty;
  e ← (toLowerCase L <$> castRequired castTrimmed (prop b "email")) ≫= nonEmpty;
  f ← extrasOf (userExtras L) b;
  Some (mkUser n e (userCreatedAt (f (mkUser n e (now a) (now a))))
                   (userUpdatedAt (f (mkUser n e (now a) (now a))))).

(** The unique index on [email]. *)
Definition emailTaken (st : Store) (e : string) : Prop :=
  Exists (λ x : ObjectId * User, email x.2 = e) (map_to_list (users st)).

#[global] Instance emailTaken_dec st e : Decision (emailTaken st e).
Proof. unfold emailTaken. apply _. Defined.

(** [user.save()] of a new document; a duplicate key is error code 11000. *)
Definition User_save (a : Ambient) (b : Body) : M (ObjectId * User) :=
  match newUser a b with
  | None => throw ValidationError
  | Some u =>
      await st ⇐ getStore ;;
      if decide (is_Some (users st !! generatedId a) ∨ emailTaken st (email u)) then
        throw (MongoServerError 11000%N)
      else
        await _ ⇐ putStore (mkStore (<[generatedId a := u]> (users st)) (meetings st)) ;;
        ret (generatedId a, u)
  end.

(** ** Responses *)

Inductive Payload : Type :=
  | ErrorMessage (error : string)
  | ErrorThrown (e : Exn)
  | FieldErrors (errors : list (string * string))
  | Message (message : string)
  | UserDoc (u : ObjectId * User)
  | UserDocs (us : list (ObjectId * User))
  | MeetingDoc (m : option Populated)
  | MeetingDocs (ms : list Populated)
  (** an empty body, as [cors()] ends a preflight *)
  | NoContent
  (** the page that Express writes itself for an error no middleware took *)
  | DefaultErrorPage.

Record Response : Type := mkResponse {
  status : nat;
  payload : Payload
}.

(** [try { body } catch (error) { handler(error) }] *)
Definition tryCatch (body : M Response) (handler : Exn → Response) : M Response :=
  λ st, match body st with
        | (Ok r, st') => (Ok r, st')
        | (Throw e, st') => (Ok (handler e), st')
        end.

(** [res.status(500).json({ error: error.message })] *)
Definition internalError (e : Exn) : Response :=
  mkResponse 500 (ErrorThrown e).

(** ** Validation middleware *)

(** One validation chain: the error it records, if any, as (field, message). *)
Definition check (ok : bool) (field msg : string) : list (string * string) :=
  if ok then [] else [(field, msg)].

(** [.optional()]: the chain is skipped when the field is [undefined]. *)
Definition optional (f : json → bool) (v : option json) : bool :=
  match v with
  | None => true
  | Some j => f j
  end.

Definition validateMeeting (b : Body) : list (string * string) :=
  check (notEmpty L (prop b "title")) "title" "Title is required" ++
  check (isISO8601 L (prop b "startDate")) "startDate" "Start date must be a valid date" ++
  check (isISO8601 L (prop b "endDate")) "endDate" "End date must be a valid date" ++
  check (isMongoId L (prop b "organizer")) "organizer" "Organizer must be a valid user ID" ++
  check (optional isArray (prop b "attendees")) "attendees" "Attendees must be an array".

Definition validateUser (b : Body) : list (string * string) :=
  check (notEmpty L (prop b "name")) "name" "Name is required" ++
  check (isEmail L (prop b "email")) "email" "Valid email is required".

(** [handleValidationErrors]: answer 400 with the recorded errors, or call
    [next()]. *)
Definition handleValidationErrors (errors : list (string * string))
    (next : M Response) : M Response :=
  match errors with
  | [] => next
  | _ :: _ => ret (mkResponse 400 (FieldErrors errors))
  end.

(** ** Route handlers *)

(** [new Date(x) >= new Date(y)] on time values; false when either is NaN. *)
Definition dateGe (x y : option Z) : bool :=
  match x, y with
  | Some s, Some e => bool_decide (e ≤ s)%Z
  | _, _ => false
  end.

(** [req.body.attendees && req.body.attendees.length > 0].  The handlers
    run behind [validateMeeting], which lets [attendees] through only when
    it is [undefined] or an array (lemma [validateMeeting_attendees]). *)
Definition attendeesGiven (v : option json) : option (list json) :=
  match v with
  | Some (JArr (x :: xs)) => Some (x :: xs)
  | _ => None
  end.

(** [app.get('/')] *)
Definition health : M Response :=
  ret (mkResponse 200 (Message "Meetings API Service is running!")).

(** [app.get('/api/users')] *)
Definition getUsers : M Response :=
  tryCatch
    (await us ⇐ User_find_all ;;
     ret (mkResponse 200 (UserDocs us)))
    internalError.

(** [app.post('/api/users')] *)
Definition postUser (a : Ambient) (b : Body) : M Response :=
  handleValidationErrors (validateUser b)
    (tryCatch
       (await savedUser ⇐ User_save a b ;;
        ret (mkResponse 201 (UserDoc savedUser)))
       (λ error,
          match error with
          | MongoServerError code =>
              if decide (code = 11000%N)
              then mkResponse 400 (ErrorMessage "Email already exists")
              else internalError error
          | _ => internalError error
          end)).

(** [app.get('/api/users/:id')] *)
Definition getUser (id : string) : M Response :=
  tryCatch
    (await user ⇐ User_findById (Some (JStr id)) ;;
     match user with
     | None => ret (mkResponse 404 (ErrorMessage "User not found"))
     | Some u => ret (mkResponse 200 (UserDoc u))
     end)
    internalError.

(** [app.get('/api/meetings')] *)
Definition getMeetings : M Response :=
  tryCatch
    (await found ⇐ Meeting_find_all ;;
     await ms ⇐ populateAll found ;;
     ret (mkResponse 200 (MeetingDocs ms)))
    internalError.

(** [app.get('/api/meetings/:id')] *)
Definition getMeeting (id : string) : M Response :=
  tryCatch
    (await found ⇐ Meeting_findById (JStr id) ;;
     match found with
     | None => ret (mkResponse 404 (ErrorMessage "Meeting not found"))
     | Some x =>
         await meeting ⇐ populate x ;;
         ret (mkResponse 200 (MeetingDoc (Some meeting)))
     end)
    internalError.

(** [app.post('/api/meetings')] *)
Definition postMeeting (a : Ambient) (b : Body) : M Response :=
  handleValidationErrors (validateMeeting b)
    (tryCatch
       (let save : M Response :=
          await savedId ⇐ Meeting_save a b ;;
          await found ⇐ Meeting_findById_oid savedId ;;
          match found with
          | None => ret (mkResponse 201 (MeetingDoc None))
          | Some x =>
              await populatedMeeting ⇐ populate x ;;
              ret (mkResponse 201 (MeetingDoc (Some populatedMeeting)))
          end in
        if dateGe (newDate L (prop b "startDate")) (newDate L (prop b "endDate")) then
          ret (mkResponse 400 (ErrorMessage "Start date must be before end date"))
        else
          await organizer ⇐ User_findById (prop b "organizer") ;;
          match organizer with
          | None => ret (mkResponse 400 (ErrorMessage "Organizer not found"))
          | Some _ =>
              match attendeesGiven (prop b "attendees") with
              | Some xs =>
                  await attendeeCount ⇐ User_countDocuments_in xs ;;
                  if decide (attendeeCount ≠ length xs) then
                    ret (mkResponse 400 (ErrorMessage "One or more attendees not found"))
                  else save
              | None => save
              end
          end)
       internalError).

(** [app.put('/api/meetings/:id')] *)
Definition putMeeting (a : Ambient) (id : string) (b : Body) : M Response :=
  handleValidationErrors (validateMeeting b)
    (tryCatch
       (let update : M Response :=
          await updated ⇐ Meeting_findByIdAndUpdate a (JStr id) b ;;
          match updated with
          | None => ret (mkResponse 404 (ErrorMessage "Meeting not found"))
          | Some x =>
              await meeting ⇐ populate x ;;
              ret (mkResponse 200 (MeetingDoc (Some meeting)))
          end in
        if dateGe (newDate L (prop b "startDate")) (newDate L (prop b "endDate")) then
          ret (mkResponse 400 (ErrorMessage "Start date must be before end date"))
        else
          await organizer ⇐ User_findById (prop b "organizer") ;;
          match organizer with
          | None => ret (mkResponse 400 (ErrorMessage "Organizer not found"))
          | Some _ =>
              match attendeesGiven (prop b "attendees") with
              | Some xs =>
                  await attendeeCount ⇐ User_countDocuments_in xs ;;
                  if decide (attendeeCount ≠ length xs) then
                    ret (mkResponse 400 (ErrorMessage "One or more attendees not found"))
                  else update
              | None => update
              end
          end)
       internalError).

(** [app.delete('/api/meetings/:id')] *)
Definition deleteMeeting (id : string) : M Response :=
  tryCatch
    (await meeting ⇐ Meeting_findByIdAndDelete (JStr id) ;;
     match meeting with
     | None => ret (mkResponse 404 (ErrorMessage "Meeting not found"))
     | Some _ => ret (mkResponse 200 (Message "Meeting deleted successfully"))
     end)
    internalError.

(** [app.get('/api/users/:userId/meetings')] *)
Definition getUserMeetings (userId : string) : M Response :=
  tryCatch
    (await user ⇐ User_findById (Some (JStr userId)) ;;
     match user with
     | None => ret (mkResponse 404 (ErrorMessage "User not found"))
     | Some _ =>
         await found ⇐ Meeting_find_byUser (JStr userId) ;;
         await ms ⇐ populateAll found ;;
         ret (mkResponse 200 (MeetingDocs ms))
     end)
    internalError.

(** The handler registered by [app.get('/api/meetings/upcoming')]. *)
Definition getUpcoming (a : Ambient) : M Response :=
  tryCatch
    (let now := now a in
     await found ⇐ Meeting_find_upcoming now ;;
     await ms ⇐ populateAll found ;;
     ret (mkResponse 200 (MeetingDocs ms)))
    internalError.

(** [app.use('*')] *)
Definition routeNotFound : M Response :=
  ret (mkResponse 404 (ErrorMessage "Route not found")).

End Service.

(** ** Routing *)

(** The methods that the routes tell apart; [PATCH] stands for every
    method that has no route. *)
Inductive Method : Type := GET | POST | PUT | DELETE | PATCH.

#[global] Instance Method_eq_dec : EqDecision Method.
Proof. solve_decision. Defined.

(** A request as the routes see it, behind [cors()] and [express.json()]:
    its method, the segments of its path between the slashes (a final
    slash adds none), and its parsed JSON body.  The segments are taken
    to be non-empty and free of escapes, so that a route parameter is the
    segment it captures; [Arrival] below has the general case. *)
Record Request : Type := mkRequest {
  method : Method;
  path : list string;
  body : Body
}.

(** A segment of a route path: a literal, or a [:name] parameter. *)
Inductive Segment : Type :=
  | Lit (s : string)
  | Param.

Inductive Endpoint : Type :=
  | Health
  | GetUsers
  | PostUser
  | GetUser
  | GetMeetings
  | GetMeeting
  | PostMeeting
  | PutMeeting
  | DeleteMeeting
  | GetUserMeetings
  | GetUpcoming.

(** The routes, in the order in which [server.js] registers them. *)
Definition routes : list (Method * list Segment * Endpoint) :=
  [ (GET, [], Health);
    (GET, [Lit "api"; Lit "users"], GetUsers);
    (POST, [Lit "api"; Lit "users"], PostUser);
    (GET, [Lit "api"; Lit "users"; Param], GetUser);
    (GET, [Lit "api"; Lit "meetings"], GetMeetings);
    (GET, [Lit "api"; Lit "meetings"; Param], GetMeeting);
    (POST, [Lit "api"; Lit "meetings"], PostMeeting);
    (PUT, [Lit "api"; Lit "meetings"; Param], PutMeeting);
    (DELETE, [Lit "api"; Lit "meetings"; Param], DeleteMeeting);
    (GET, [Lit "api"; Lit "users"; Param; Lit "meetings"], GetUserMeetings);
    (GET, [Lit "api"; Lit "meetings"; Lit "upcoming"], GetUpcoming) ].

(** Express matches the literals of a route path without regard to the
    case of the letters A to Z. *)
Definition foldChar (c : ascii) : ascii :=
  let n := N_of_ascii c in
  if bool_decide (65 ≤ n ≤ 90)%N then ascii_of_N (n + 32) else c.

Definition foldCase (s : string) : string :=
  String.string_of_list_ascii (foldChar <$> String.list_ascii_of_string s).

(** Match of a request path against a route path, segment by segment; the
    result is [req.params], in order. *)
Fixpoint matchPath (pat : list Segment) (p : list string) : option (list string) :=
  match pat, p with
  | [], [] => Some []
  | Lit s :: pat', x :: p' =>
      if decide (foldCase s = foldCase x) then matchPath pat' p' else None
  | Param :: pat', x :: p' => cons x <$> matchPath pat' p'
  | _, _ => None
  end.

(** Express tries the routes in registration order; each handler of this
    application answers without calling [next()], so the first matching
    route decides. *)
Fixpoint dispatch (rs : list (Method * list Segment * Endpoint))
    (m : Method) (p : list string) : option (Endpoint * list string) :=
  match rs with
  | [] => None
  | (m', pat, e) :: rs' =>
      if decide (m' = m) then
        match matchPath pat p with
        | Some params => Some (e, params)
        | None => dispatch rs' m p
        end
      else dispatch rs' m p
  end.

(** [req.params] has exactly the parameters of the matched route. *)
Definition param (params : list string) (i : nat) : string :=
  default EmptyString (params !! i).

(** *** Requests as they arrive *)

(** The method of a request as it arrives: [OPTIONS], which [cors()]
    answers; [HEAD], which Express serves by the routes of [GET] (the
    answer is then sent without its body); or one of the methods above. *)
Inductive Verb : Type :=
  | OPTIONS
  | HEAD
  | Plain (m : Method).

#[global] Instance Verb_eq_dec : EqDecision Verb.
Proof. solve_decision. Defined.

(** The method under which the routes take a request that [cors()] has
    let through. *)
Definition routedAs (v : Verb) : Method :=
  match v with
  | Plain m => m
  | HEAD | OPTIONS => GET
  end.

(** A request as it arrives: its method; its path, without the query
    string, cut at the slashes into the segments as sent (escapes
    included; a segment is empty where two slashes meet, and the empty
    piece behind a final slash is left out); and what [express.json()]
    makes of it: the value it leaves in [req.body] (the empty object when
    the request has no JSON body), or [None] when it passes an error on
    (malformed JSON, a body over the limit, ...). *)
Record Arrival : Type := mkArrival {
  verb : Verb;
  segments : list string;
  parsed : option Body
}.

(** A parameter of a route path takes one character or more, so no empty
    segment: the match of the path as sent, with what the parameters
    capture. *)
Definition matchSent (pat : list Segment) (p : list string) : option (list string) :=
  if decide (EmptyString ∈ p) then None else matchPath pat p.

(** Where the routes send a request. *)
Inductive Routed : Type :=
  | To (e : Endpoint) (params : list string)
  | DecodeError
  | Unrouted.

Section Application.

Context (L : Library).

Definition endpoint (a : Ambient) (b : Body) (e : Endpoint)
    (params : list string) : M Response :=
  match e with
  | Health => health
  | GetUsers => getUsers
  | PostUser => postUser L a b
  | GetUser => getUser L (param params 0)
  | GetMeetings => getMeetings
  | GetMeeting => getMeeting L (param params 0)
  | PostMeeting => postMeeting L a b
  | PutMeeting => putMeeting L a (param params 0) b
  | DeleteMeeting => deleteMeeting L (param params 0)
  | GetUserMeetings => getUserMeetings L (param params 0)
  | GetUpcoming => getUpcoming a
  end.

(** The routes of the application and the fallback: a request that has
    reached them, served in a store, gives a response and the store after
    it.  An exception that escapes a handler reaches the error middleware.
    The stages before the routes are not part of [handle]: [cors()], which
    answers a preflight itself, and [express.json()] and the decoding of
    the path parameters, whose failures go to the error middleware.  They
    are part of [app] below, which agrees with [handle] on the requests
    that pass them unchanged. *)
Definition handle (a : Ambient) (r : Request) (st : Store) : Response * Store :=
  let c := match dispatch routes (method r) (path r) with
           | Some (e, params) => endpoint a (body r) e params
           | None => routeNotFound
           end in
  match c st with
  | (Ok res, st') => (res, st')
  | (Throw _, st') => (mkResponse 500 (ErrorMessage "Something went wrong!"), st')
  end.

(** *** The application from its first middleware on *)

(** Express goes through the routes in registration order.  It matches
    the path first and decodes what the parameters captured, and only then
    looks at the method: a capture that does not decode is an error
    whatever the method, and with an error pending no later route is
    entered. *)
Fixpoint route (rs : list (Method * list Segment * Endpoint))
    (m : Method) (p : list string) : Routed :=
  match rs with
  | [] => Unrouted
  | (m', pat, e) :: rs' =>
      match matchSent pat p with
      | Some captured =>
          match castAll (decodeURIComponent L) captured with
          | None => DecodeError
          | Some params =>
              if decide (m' = m) then To e params else route rs' m p
          end
      | None => route rs' m p
      end
  end.

(** The error-handling middleware, [app.use((err, req, res, next) => ...)]. *)
Definition errorMiddleware : Response :=
  mkResponse 500 (ErrorMessage "Something went wrong!").

(** The whole application, in the order of its [app.use] and route calls:
    [cors()] ends a preflight with 204; an error of [express.json()] skips
    the routes and is taken by the error middleware, and so is a route
    parameter that does not decode; a request that no route takes goes on to
    [app.use('*')], which captures the whole path and decodes it (an escape
    does not span a slash, so the path decodes when its segments do): when
    that fails, the error middleware is already behind, and Express itself
    answers with the status of the error, 400. *)
Definition app (a : Ambient) (q : Arrival) (st : Store) : Response * Store :=
  match verb q with
  | OPTIONS => (mkResponse 204 NoContent, st)
  | _ =>
      match parsed q with
      | None => (errorMiddleware, st)
      | Some b =>
          match route routes (routedAs (verb q)) (segments q) with
          | To e params =>
              match endpoint a b e params st with
              | (Ok res, st') => (res, st')
              | (Throw _, st') => (errorMiddleware, st')
              end
          | DecodeError => (errorMiddleware, st)
          | Unrouted =>
              match castAll (decodeURIComponent L) (segments q) with
              | Some _ => (mkResponse 404 (ErrorMessage "Route not found"), st)
              | None => (mkResponse 400 DefaultErrorPage, st)
              end
          end
      end
  end.

End Application.

(** ** A reference library

    An instance of [Library] that decides string values the way the packages
    do on the common shapes: 24-digit hexadecimal ids, UTC date-times of the
    form [YYYY-MM-DDTHH:MM:SSZ], addresses of the form [local@domain].  It
    is used to run the handlers on concrete requests; values of other shapes
    are rejected by its checks and fail its casts, and so is a body with a
    key beyond the paths of the schemas; of the escapes in a path it
    decodes those of ASCII characters. *)
Module Reference.

Definition digit (c : ascii) : option Z :=
  let n := Z.of_N (N_of_ascii c) in
  if bool_decide (48 ≤ n ≤ 57)%Z then Some (n - 48)%Z else None.

Definition hexDigit (c : ascii) : option Z :=
  let n := Z.of_N (N_of_ascii c) in
  if bool_decide (48 ≤ n ≤ 57)%Z then Some (n - 48)%Z
  else if bool_decide (97 ≤ n ≤ 102)%Z then Some (n - 87)%Z
  else if bool_decide (65 ≤ n ≤ 70)%Z then Some (n - 55)%Z
  else None.

(** The number written by a non-empty run of digits in base [base]. *)
Definition number (base : Z) (dig : ascii → option Z) (cs : list ascii) : option Z :=
  match cs with
  | [] => None
  | _ => foldl (λ acc c, n ← acc; d ← dig c; Some (n * base + d)%Z) (Some 0%Z) cs
  end.

Definition slice (i n : nat) (cs : list ascii) : list ascii :=
  take n (drop i cs).

(** validator.js [isMongoId]: 24 hexadecimal digits. *)
Definition hexId (s : string) : option ObjectId :=
  if decide (String.length s = 24)
  then Z.to_N <$> number 16 hexDigit (String.list_ascii_of_string s)
  else None.

Definition isLeap (y : Z) : bool :=
  bool_decide (y mod 4 = 0 ∧ (y mod 100 ≠ 0 ∨ y mod 400 = 0))%Z.

Definition daysInMonth (y m : Z) : Z :=
  if bool_decide (m = 2)%Z then (if isLeap y then 29 else 28)%Z
  else if bool_decide (m = 4 ∨ m = 6 ∨ m = 9 ∨ m = 11)%Z then 30%Z
  else 31%Z.

(** Days from 1970-01-01 to the civil date [y]-[m]-[d]. *)
Definition daysFromCivil (y m d : Z) : Z :=
  let y' := (if bool_decide (m ≤ 2)%Z then y - 1 else y)%Z in
  let era := (y' / 400)%Z in
  let yoe := (y' - era * 400)%Z in
  let mp := ((m + 9) mod 12)%Z in
  let doy := ((153 * mp + 2) / 5 + d - 1)%Z in
  let doe := (yoe * 365 + yoe / 4 - yoe / 100 + doy)%Z in
  (era * 146097 + doe - 719468)%Z.

(** The time value of [YYYY-MM-DDTHH:MM:SSZ]. *)
Definition utcDateTime (s : string) : option Z :=
  let cs := String.list_ascii_of_string s in
  if decide (length cs = 20 ∧
             slice 4 1 cs = ["-"%char] ∧ slice 7 1 cs = ["-"%char] ∧
             slice 10 1 cs = ["T"%char] ∧ slice 13 1 cs = [":"%char] ∧
             slice 16 1 cs = [":"%char] ∧ slice 19 1 cs = ["Z"%char]) then
    y ← number 10 digit (slice 0 4 cs);
    m ← number 10 digit (slice 5 2 cs);
    d ← number 10 digit (slice 8 2 cs);
    h ← number 10 digit (slice 11 2 cs);
    mi ← number 10 digit (slice 14 2 cs);
    se ← number 10 digit (slice 17 2 cs);
    if bool_decide (1 ≤ m ≤ 12 ∧ 1 ≤ d ≤ daysInMonth y m ∧
                    h ≤ 23 ∧ mi ≤ 59 ∧ se ≤ 59)%Z
    then Some ((((daysFromCivil y m d * 24 + h) * 60 + mi) * 60 + se) * 1000)%Z
    else None
  else None.

Definition isSpace (c : ascii) : bool :=
  let n := N_of_ascii c in
  bool_decide (n = 32 ∨ 9 ≤ n ≤ 13)%N.

Fixpoint dropSpaces (cs : list ascii) : list ascii :=
  match cs with
  | c :: cs' => if isSpace c then dropSpaces cs' else cs
  | [] => []
  end.

Definition trimAscii (s : string) : string :=
  String.string_of_list_ascii
    (reverse (dropSpaces (reverse (dropSpaces (String.list_ascii_of_string s))))).

Definition lowerChar (c : ascii) : ascii :=
  let n := N_of_ascii c in
  if bool_decide (65 ≤ n ≤ 90)%N then ascii_of_N (n + 32) else c.

Definition lowerAscii (s : string) : string :=
  String.string_of_list_ascii (lowerChar <$> String.list_ascii_of_string s).

(** The text before and after the first [@]. *)
Fixpoint splitAtSign (cs : list ascii) : option (list ascii * list ascii) :=
  match cs with
  | [] => None
  | c :: cs' =>
      if bool_decide (c = "@"%char) then Some ([], cs')
      else (λ p, (c :: p.1, p.2)) <$> splitAtSign cs'
  end.

(** An address [local@domain]: one [@], no spaces, a dot inside the domain. *)
Definition simpleEmail (s : string) : bool :=
  let isDot (c : ascii) := bool_decide (c = "."%char) in
  match splitAtSign (String.list_ascii_of_string s) with
  | Some (loc, dom) =>
      bool_decide (loc ≠ []) &&
      negb (existsb isSpace (loc ++ dom)) &&
      negb (existsb (λ c, bool_decide (c = "@"%char)) dom) &&
      existsb isDot dom &&
      negb (isDot (default "."%char (head dom))) &&
      negb (isDot (default "."%char (last dom)))
  | None => false
  end.

Definition onString {A} (f : string → A) (d : A) (v : option json) : A :=
  match v with
  | Some (JStr s) => f s
  | _ => d
  end.

(** Escapes [%XX] of ASCII characters. *)
Fixpoint unescape (cs : list ascii) : option (list ascii) :=
  match cs with
  | [] => Some []
  | "%"%char :: h :: l :: cs' =>
      n ← number 16 hexDigit [h; l];
      if bool_decide (n < 128)%Z
      then cons (ascii_of_N (Z.to_N n)) <$> unescape cs'
      else None
  | "%"%char :: _ => None
  | c :: cs' => cons c <$> unescape cs'
  end.

Definition lib : Library :=
  {| notEmpty := onString (λ s, bool_decide (s ≠ EmptyString)) false;
     isISO8601 := onString (λ s, bool_decide (is_Some (utcDateTime s))) false;
     isMongoId := onString (λ s, bool_decide (is_Some (hexId s))) false;
     isEmail := onString simpleEmail false;
     newDate := onString utcDateTime None;
     castObjectId := λ j, onString hexId None (Some j);
     castString := λ j, onString Some None (Some j);
     castDate := λ j, onString utcDateTime None (Some j);
     trim := trimAscii;
     toLowerCase := lowerAscii;
     meetingExtras := λ _, None;
     userExtras := λ _, None;
     updateExtras := λ _, None;
     decodeURIComponent := λ s,
       String.string_of_list_ascii <$> unescape (String.list_ascii_of_string s) |}.

End Reference.

(** ** The checks shared by create and update

    [app.post('/api/meetings')] and [app.put('/api/meetings/:id')] open with
    the same three checks.  [referentialChecks] names their joint verdict;
    lemmas [postMeeting_behindChecks] and [putMeeting_behindChecks] show
    each handler to be those checks followed by its own write. *)

Inductive Verdict : Type :=
  | Rejected (r : Response)
  | Raised (e : Exn)
  | Passed.

Section Derived.

Context (L : Library).

Definition referentialChecks (b : Body) (st : Store) : Verdict :=
  if dateGe (newDate L (prop b "startDate")) (newDate L (prop b "endDate")) then
    Rejected (mkResponse 400 (ErrorMessage "Start date must be before end date"))
  else
    match User_findById L (prop b "organizer") st with
    | (Throw e, _) => Raised e
    | (Ok None, _) => Rejected (mkResponse 400 (ErrorMessage "Organizer not found"))
    | (Ok (Some _), _) =>
        match attendeesGiven (prop b "attendees") with
        | None => Passed
        | Some xs =>
            match User_countDocuments_in L xs st with
            | (Throw e, _) => Raised e
            | (Ok attendeeCount, _) =>
                if decide (attendeeCount ≠ length xs) then
                  Rejected (mkResponse 400 (ErrorMessage "One or more attendees not found"))
                else Passed
            end
        end
    end.

(** The write of [app.post('/api/meetings')]: save, re-fetch, populate. *)
Definition saveMeeting (a : Ambient) (b : Body) : M Response :=
  await savedId ⇐ Meeting_save L a b ;;
  await found ⇐ Meeting_findById_oid savedId ;;
  match found with
  | None => ret (mkResponse 201 (MeetingDoc None))
  | Some x =>
      await populatedMeeting ⇐ populate x ;;
      ret (mkResponse 201 (MeetingDoc (Some populatedMeeting)))
  end.

(** The write of [app.put('/api/meetings/:id')]. *)
Definition updateMeeting (a : Ambient) (id : string) (b : Body) : M Response :=
  await updated ⇐ Meeting_findByIdAndUpdate L a (JStr id) b ;;
  match updated with
  | None => ret (mkResponse 404 (ErrorMessage "Meeting not found"))
  | Some x =>
      await meeting ⇐ populate x ;;
      ret (mkResponse 200 (MeetingDoc (Some meeting)))
  end.

(** A handler behind [validateMeeting] and the three checks. *)
Definition behindChecks (b : Body) (write : M Response) (st : Store)
    : Outcome Response * Store :=
  match validateMeeting L b with
  | [] =>
      match referentialChecks b st with
      | Rejected r => (Ok r, st)
      | Raised e => (Ok (internalError e), st)
      | Passed => tryCatch write internalError st
      end
  | _ :: _ => (Ok (mkResponse 400 (FieldErrors (validateMeeting L b))), st)
  end.

(** *** Conditions on a meeting payload

    The conditions the handlers test, stated on the request and the store. *)

(** Both dates parse and [startDate >= endDate]. *)
Definition datesOutOfOrder (b : Body) : Prop :=
  ∃ s e, newDate L (prop b "startDate") = Some s ∧
         newDate L (prop b "endDate") = Some e ∧ (e ≤ s)%Z.

(** [organizer] is the id of no user. *)
Definition organizerAbsent (b : Body) (st : Store) : Prop :=
  ∃ j o, prop b "organizer" = Some j ∧ castObjectId L j = Some o ∧
         users st !! o = None.

(** [organizer] is the id of a user. *)
Definition organizerPresent (b : Body) (st : Store) : Prop :=
  ∃ j o, prop b "organizer" = Some j ∧ castObjectId L j = Some o ∧
         is_Some (users st !! o).

(** [attendees] is a list of ids, one of which is the id of no user. *)
Definition attendeeAbsent (b : Body) (st : Store) : Prop :=
  ∃ xs ids x, prop b "attendees" = Some (JArr xs) ∧
              castAll (castObjectId L) xs = Some ids ∧
              x ∈ ids ∧ users st !! x = None.

(** [attendees], when given, is a list of distinct ids of users, without
    a [null]. *)
Definition attendeesPresent (b : Body) (st : Store) : Prop :=
  ∀ xs, prop b "attendees" = Some (JArr xs) →
        (JNull ∉ xs) ∧
        (∃ ids, castAll (castObjectId L) xs = Some ids ∧ NoDup ids ∧
                ∀ x, x ∈ ids → is_Some (users st !! x)).


End Derived.

(** ** Requests of the API and sample data *)

Definition POST_meetings (b : Body) : Request :=
  mkRequest POST ["api"; "meetings"] b.
Definition PUT_meeting (id : string) (b : Body) : Request :=
  mkRequest PUT ["api"; "meetings"; id] b.
Definition DELETE_meeting (id : string) : Request :=
  mkRequest DELETE ["api"; "meetings"; id] [].
Definition GET_meeting (id : string) : Request :=
  mkRequest GET ["api"; "meetings"; id] [].
Definition GET_upcoming : Request :=
  mkRequest GET ["api"; "meetings"; "upcoming"] [].
Definition GET_user (id : string) : Request :=
  mkRequest GET ["api"; "users"; id] [].
Definition GET_user_meetings (userId : string) : Request :=
  mkRequest GET ["api"; "users"; userId; "meetings"] [].

Module Sample.

Definition johnId : string := "507f1f77bcf86cd799439011".
Definition janeId : string := "507f1f77bcf86cd799439012".
Definition nobodyId : string := "507f1f77bcf86cd799439099".
Definition standupId : string := "65b0c0ffee65b0c0ffee0001".

Definition oid (s : string) : ObjectId := default 0%N (Reference.hexId s).

Definition john : User := mkUser "John Doe" "john.doe@example.com" 1700000000000 1700000000000.
Definition jane : User := mkUser "Jane Roe" "jane.roe@example.com" 1700000001000 1700000001000.

(** A meeting payload in the shape of the README's example. *)
Definition meetingBody (startDate endDate organizer : string) (attendees : list json) : Body :=
  [ ("title", JStr "Team Standup");
    ("description", JStr "Daily team standup meeting");
    ("startDate", JStr startDate);
    ("endDate", JStr endDate);
    ("location", JStr "Conference Room A");
    ("organizer", JStr organizer);
    ("attendees", JArr attendees) ].

Definition standupBody (attendees : list json) : Body :=
  meetingBody "2024-02-01T09:00:00Z" "2024-02-01T09:30:00Z" johnId attendees.

Definition standup : Meeting :=
  mkMeeting "Team Standup" (Some "Daily team standup meeting")
    1706778000000 1706779800000 (Some "Conference Room A")
    (oid johnId) [oid janeId] 1700000002000 1700000002000.

(** Two users and no meeting. *)
Definition usersOnly : Store :=
  mkStore (<[oid johnId := john]> (<[oid janeId := jane]> ∅)) ∅.

(** Two users and one meeting. *)
Definition withStandup : Store :=
  mkStore (users usersOnly) (<[oid standupId := standup]> ∅).

Definition ambient : Ambient := mkAmbient 1706000000000 (oid "65b0c0ffee65b0c0ffee0002").

End Sample.

(** ** Sequences of requests *)


(** The bodies of a sequence of requests carry top-level paths of the
    schemas only: no operator, no dotted path, no [_id] or timestamp. *)
Definition plainBodies (reqs : list (Ambient * Request)) : Prop :=
  Forall (λ ar, extraKeys (body ar.2) = []) reqs.

(** The store after a sequence of requests, served one after the other. *)
Fixpoint serve (L : Library) (reqs : list (Ambient * Request)) (st : Store) : Store :=
  match reqs with
  | [] => st
  | (a, r) :: reqs' => serve L reqs' (handle L a r st).2
  end.

(** ** Further requests, store invariants and scenarios *)

Definition GET_users : Request :=
  mkRequest GET ["api"; "users"] [].
Definition POST_users (b : Body) : Request :=
  mkRequest POST ["api"; "users"] b.
Definition GET_meetings : Request :=
  mkRequest GET ["api"; "meetings"] [].

(** The unique index on [email]: no two users share an address. *)
Definition uniqueEmails (st : Store) : Prop :=
  ∀ o1 o2 u1 u2,
    users st !! o1 = Some u1 → users st !! o2 = Some u2 →
    email u1 = email u2 → o1 = o2.

(** Every stored meeting refers to users that exist. *)
Definition referencesResolve (st : Store) : Prop :=
  ∀ o m, meetings st !! o = Some m →
         is_Some (users st !! organizer m) ∧
         ∀ x, x ∈ attendees m → is_Some (users st !! x).


Module Scenario.

(** The document that [Sample.standupBody [jane]] becomes under
    [Sample.ambient]. *)
Definition createdStandup : Meeting :=
  mkMeeting "Team Standup" (Some "Daily team standup meeting")
    1706778000000 1706779800000 (Some "Conference Room A")
    (Sample.oid Sample.johnId) [Sample.oid Sample.janeId]
    1706000000000 1706000000000.

Definition createdId : string := "65b0c0ffee65b0c0ffee0002".

(** A partial update: a new title and new dates, nothing else. *)
Definition reschedule : Body :=
  [ ("title", JStr "Standup, moved");
    ("startDate", JStr "2024-02-02T09:00:00Z");
    ("endDate", JStr "2024-02-02T09:30:00Z");
    ("organizer", JStr Sample.johnId) ].

(** What the schema casts [reschedule] to. *)
Definition rescheduleUpdate : MeetingUpdate :=
  mkMeetingUpdate (Some "Standup, moved") None
    (Some 1706864400000%Z) (Some 1706866200000%Z) None
    (Some (Sample.oid Sample.johnId)) None (λ m, m).

Definition newUserBody : Body :=
  [ ("name", JStr " Ada Lovelace ");
    ("email", JStr "Ada@Example.com") ].

Definition ada : User :=
  mkUser "Ada Lovelace" "ada@example.com" 1706000000000 1706000000000.

(** A user is added, then the sample meeting is rescheduled, then deleted. *)
Definition session : list (Ambient * Request) :=
  [ (Sample.ambient, POST_users newUserBody);
    (Sample.ambient, PUT_meeting Sample.standupId reschedule);
    (Sample.ambient, DELETE_meeting Sample.standupId) ].

End Scenario.

(** * Properties *)

(** ** The reference library on sample values *)

Example Reference_date :
  Reference.utcDateTime "2024-02-01T09:00:00Z" = Some 1706778000000%Z.
Proof. vm_compute. reflexivity. Qed.

Example Reference_id :
  Reference.hexId "507f1f77bcf86cd799439011" = Some 24912482966938930280208240657%N.
Proof. vm_compute. reflexivity. Qed.

Example Reference_trim : Reference.trimAscii "  Team Standup " = "Team Standup".
Proof. vm_compute. reflexivity. Qed.

Example Reference_email :
  Reference.simpleEmail "john.doe@example.com" = true ∧
  Reference.simpleEmail "john.doe" = false.
Proof. vm_compute. split; reflexivity. Qed.

(** ** The referential count *)

(** The users counted by [{ _id: { $in: ids } }] are as many as the entries
    of [ids] exactly when [ids] has no repetition and all its ids exist. *)
Lemma count_in_eq_length (us : gmap ObjectId User) (ids : list ObjectId) :
  length (filter (λ o, o ∈ ids) (map_to_list us).*1) = length ids ↔
  NoDup ids ∧ ∀ o, o ∈ ids → is_Some (us !! o).
Proof.
  set (l := filter (λ o, o ∈ ids) (map_to_list us).*1).
  assert (Hnd : NoDup l) by apply NoDup_filter, NoDup_fst_map_to_list.
  assert (Hsub : l ⊆+ ids).
  { apply NoDup_submseteq; [done|]. intros o Ho.
    by apply list_elem_of_filter in Ho as [? _]. }
  assert (Hkey : ∀ o, o ∈ l ↔ o ∈ ids ∧ is_Some (us !! o)).
  { intros o. unfold l. rewrite list_elem_of_filter, list_elem_of_fmap.
    split.
    - intros [? ([k u] & -> & Hin)]. split; [done|].
      apply elem_of_map_to_list in Hin. by exists u.
    - intros [? [u Hu]]. split; [done|]. exists (o, u). split; [done|].
      by apply elem_of_map_to_list. }
  split.
  - intros Hlen.
    assert (Hperm : l ≡ₚ ids).
    { apply submseteq_length_Permutation; [done|]. by rewrite Hlen. }
    split.
    + by rewrite <- Hperm.
    + intros o Ho. rewrite <- Hperm in Ho. by apply Hkey in Ho as [_ ?].
  - intros [Hnd' Hall].
    assert (ids ⊆+ l).
    { apply NoDup_submseteq; [done|]. intros o Ho. apply Hkey. auto. }
    apply Nat.le_antisymm; by apply submseteq_length.
Qed.

(** The count never exceeds the number of entries. *)
Lemma count_in_le_length (us : gmap ObjectId User) (ids : list ObjectId) :
  length (filter (λ o, o ∈ ids) (map_to_list us).*1) ≤ length ids.
Proof.
  apply submseteq_length, NoDup_submseteq.
  - apply NoDup_filter, NoDup_fst_map_to_list.
  - intros o Ho. by apply list_elem_of_filter in Ho as [? _].
Qed.

Lemma omap_id_fmap_Some {A} (l : list A) : omap id (Some <$> l) = l.
Proof. induction l as [|x l IH]; [done|]. csimpl. by f_equal. Qed.

Lemma omap_id_length {A} (l : list (option A)) : length (omap id l) ≤ length l.
Proof. induction l as [|[x|] l IH]; csimpl; lia. Qed.

Lemma omap_id_all_Some {A} (l : list (option A)) :
  length (omap id l) = length l → l = Some <$> omap id l.
Proof.
  induction l as [|[x|] l IH]; csimpl; intros H; [done|..].
  - f_equal. apply IH. lia.
  - pose proof (omap_id_length l). lia.
Qed.

(** With [null] entries in the list: the count is the length exactly when
    no entry is [null] and the ids are distinct ids of users. *)
Lemma count_some_eq_length (us : gmap ObjectId User) (ids : list (option ObjectId)) :
  length (filter (λ o, Some o ∈ ids) (map_to_list us).*1) = length ids ↔
  ids = Some <$> omap id ids ∧ NoDup (omap id ids) ∧
  ∀ o, o ∈ omap id ids → is_Some (us !! o).
Proof.
  assert (Hfilter : filter (λ o, Some o ∈ ids) (map_to_list us).*1 =
                    filter (λ o, o ∈ omap id ids) (map_to_list us).*1).
  { apply list_filter_iff. intros o. rewrite list_elem_of_omap. split.
    - intros Ho. by exists (Some o).
    - by intros ([x|] & Hx & [= ->]). }
  rewrite Hfilter. split.
  - intros Hlen.
    pose proof (count_in_le_length us (omap id ids)) as Hle.
    pose proof (omap_id_length ids) as Hle'.
    assert (Hall : length (omap id ids) = length ids) by lia.
    split; [by apply omap_id_all_Some|].
    apply count_in_eq_length. lia.
  - intros (Heq & Hnd & Hex).
    assert (Hlen : length ids = length (omap id ids)).
    { rewrite Heq at 1. by rewrite length_fmap. }
    rewrite Hlen. apply count_in_eq_length. done.
Qed.

Lemma castAll_length {A B} (f : A → option B) xs ys :
  castAll f xs = Some ys → length ys = length xs.
Proof.
  revert ys. induction xs as [|x xs IH]; intros ys; simpl.
  - by intros [= <-].
  - destruct (f x); [|done]. destruct (castAll f xs); [|done].
    intros [= <-]. simpl. f_equal. by apply IH.
Qed.

(** ** Structural validation *)

Section Validation.

Context (L : Library).

Lemma check_nil ok field msg : check ok field msg = [] ↔ ok = true.
Proof. destruct ok; simpl; split; congruence. Qed.

(** No error is recorded exactly when every chain passes. *)
Lemma validateMeeting_nil b :
  validateMeeting L b = [] ↔
  notEmpty L (prop b "title") = true ∧
  isISO8601 L (prop b "startDate") = true ∧
  isISO8601 L (prop b "endDate") = true ∧
  isMongoId L (prop b "organizer") = true ∧
  optional isArray (prop b "attendees") = true.
Proof.
  unfold validateMeeting.
  rewrite !app_nil, !check_nil. tauto.
Qed.

(** Behind the validation, [attendees] is [undefined] or an array. *)
Lemma validateMeeting_attendees b :
  validateMeeting L b = [] →
  prop b "attendees" = None ∨ ∃ xs, prop b "attendees" = Some (JArr xs).
Proof.
  rewrite validateMeeting_nil. intros (_ & _ & _ & _ & H).
  destruct (prop b "attendees") as [[]|]; simpl in H; try done; eauto.
Qed.

End Validation.

(** ** The route table *)

Lemma dispatch_post_meetings :
  dispatch routes POST ["api"; "meetings"] = Some (PostMeeting, []).
Proof. reflexivity. Qed.

Lemma dispatch_put_meeting id :
  dispatch routes PUT ["api"; "meetings"; id] = Some (PutMeeting, [id]).
Proof. reflexivity. Qed.

Lemma dispatch_delete_meeting id :
  dispatch routes DELETE ["api"; "meetings"; id] = Some (DeleteMeeting, [id]).
Proof. reflexivity. Qed.

(** Every three-segment GET path under [/api/meetings] is taken by the
    [:id] route, which is registered first. *)
Lemma dispatch_get_meeting id :
  dispatch routes GET ["api"; "meetings"; id] = Some (GetMeeting, [id]).
Proof. reflexivity. Qed.

Lemma dispatch_get_user id :
  dispatch routes GET ["api"; "users"; id] = Some (GetUser, [id]).
Proof. reflexivity. Qed.

Lemma dispatch_get_user_meetings id :
  dispatch routes GET ["api"; "users"; id; "meetings"] = Some (GetUserMeetings, [id]).
Proof. reflexivity. Qed.

(** ** The checks shared by create and update *)

Section Checks.

Context (L : Library).

Lemma User_findById_store v st : (User_findById L v st).2 = st.
Proof.
  unfold User_findById, castId, bind, ret, throw, getStore.
  repeat case_match; by simplify_eq/=.
Qed.

Lemma User_countDocuments_in_store xs st : (User_countDocuments_in L xs st).2 = st.
Proof.
  unfold User_countDocuments_in, bind, ret, throw, getStore.
  repeat case_match; by simplify_eq/=.
Qed.

Lemma postMeeting_behindChecks a b st :
  postMeeting L a b st = behindChecks L b (saveMeeting L a b) st.
Proof.
  unfold postMeeting, behindChecks, referentialChecks, handleValidationErrors.
  fold (saveMeeting L a b). generalize (saveMeeting L a b) as write. intros write.
  destruct (validateMeeting L b); [|done].
  unfold tryCatch at 1. unfold bind, ret.
  destruct (dateGe _ _); [done|].
  pose proof (User_findById_store (prop b "organizer") st) as Ho.
  destruct (User_findById L (prop b "organizer") st) as [[[u|]|e] st1];
    simpl in Ho; subst st1; try done.
  destruct (attendeesGiven (prop b "attendees")) as [xs|]; [|done].
  pose proof (User_countDocuments_in_store xs st) as Hc.
  destruct (User_countDocuments_in L xs st) as [[n|e] st1];
    simpl in Hc; subst st1; [|done].
  by destruct (decide (n ≠ length xs)).
Qed.

Lemma putMeeting_behindChecks a id b st :
  putMeeting L a id b st = behindChecks L b (updateMeeting L a id b) st.
Proof.
  unfold putMeeting, behindChecks, referentialChecks, handleValidationErrors.
  fold (updateMeeting L a id b). generalize (updateMeeting L a id b) as write. intros write.
  destruct (validateMeeting L b); [|done].
  unfold tryCatch at 1. unfold bind, ret.
  destruct (dateGe _ _); [done|].
  pose proof (User_findById_store (prop b "organizer") st) as Ho.
  destruct (User_findById L (prop b "organizer") st) as [[[u|]|e] st1];
    simpl in Ho; subst st1; try done.
  destruct (attendeesGiven (prop b "attendees")) as [xs|]; [|done].
  pose proof (User_countDocuments_in_store xs st) as Hc.
  destruct (User_countDocuments_in L xs st) as [[n|e] st1];
    simpl in Hc; subst st1; [|done].
  by destruct (decide (n ≠ length xs)).
Qed.

End Checks.

(** ** What the store calls return *)

Section Calls.

Context (L : Library).

Lemma User_findById_cast j o st :
  castObjectId L j = Some o →
  User_findById L (Some j) st = (Ok (pair o <$> users st !! o), st).
Proof. intros H. unfold User_findById, castId, bind. by rewrite H. Qed.

Lemma User_findById_fail j st :
  castObjectId L j = None →
  User_findById L (Some j) st = (Throw (CastError "_id"), st).
Proof. intros H. unfold User_findById, castId, bind. by rewrite H. Qed.

Lemma Meeting_findById_cast j o st :
  castObjectId L j = Some o →
  Meeting_findById L j st = (Ok (pair o <$> meetings st !! o), st).
Proof. intros H. unfold Meeting_findById, castId, bind. by rewrite H. Qed.

Lemma Meeting_findById_fail j st :
  castObjectId L j = None →
  Meeting_findById L j st = (Throw (CastError "_id"), st).
Proof. intros H. unfold Meeting_findById, castId, bind. by rewrite H. Qed.

Lemma User_countDocuments_in_cast xs ids st :
  castAll (castIn L) xs = Some ids →
  User_countDocuments_in L xs st =
    (Ok (length (filter (λ o, Some o ∈ ids) (map_to_list (users st)).*1)), st).
Proof. intros H. unfold User_countDocuments_in. by rewrite H. Qed.

Lemma User_countDocuments_in_fail xs st :
  castAll (castIn L) xs = None →
  User_countDocuments_in L xs st = (Throw (CastError "_id"), st).
Proof. intros H. unfold User_countDocuments_in. by rewrite H. Qed.

(** The cast of an [$in] list against the cast of a list of ids: they
    differ on [null] entries only. *)
Lemma castIn_of_castObjectId xs ids :
  castAll (castObjectId L) xs = Some ids →
  ∃ ids2, castAll (castIn L) xs = Some ids2 ∧
          ∀ ids', ids2 = Some <$> ids' → ids' = ids.
Proof.
  revert ids. induction xs as [|x xs IH]; intros ids; simpl.
  - intros [= <-]. exists []. split; [done|]. by intros [|??].
  - destruct (castObjectId L x) as [y|] eqn:Hx; [|done].
    destruct (castAll (castObjectId L) xs) as [ys|]; [|done].
    intros [= <-]. destruct (IH ys eq_refl) as (ids2 & -> & Hids2).
    assert (Hc : castIn L x = Some None ∨ castIn L x = Some (Some y)).
    { destruct x; simpl; rewrite ?Hx; auto. }
    destruct Hc as [-> | ->].
    + eexists. split; [done|]. by intros [|??].
    + eexists. split; [done|]. intros [|y' ids']; [done|].
      simpl. intros [= <- ->]. f_equal. by apply Hids2.
Qed.

Lemma castIn_all_Some xs ids :
  castAll (castIn L) xs = Some (Some <$> ids) →
  (JNull ∉ xs) ∧ castAll (castObjectId L) xs = Some ids.
Proof.
  revert ids. induction xs as [|x xs IH]; intros ids; simpl.
  - destruct ids; [|done]. intros _. split; [by intros ?%elem_of_nil|done].
  - destruct (castIn L x) as [y|] eqn:Hx; [|done].
    destruct (castAll (castIn L) xs) as [ys|] eqn:Hxs; [|done].
    destruct ids as [|i ids]; [done|]. simpl. intros [= -> ->].
    destruct (IH ids eq_refl) as [Hnull ->].
    assert (x ≠ JNull ∧ castObjectId L x = Some i) as [Hne ->].
    { destruct x; simpl in Hx; try done;
        (destruct (castObjectId L _); simpl in Hx; by simplify_eq). }
    split; [|done]. by intros [?|?]%elem_of_cons.
Qed.

Lemma castIn_no_null xs ids :
  JNull ∉ xs → castAll (castObjectId L) xs = Some ids →
  castAll (castIn L) xs = Some (Some <$> ids).
Proof.
  revert ids. induction xs as [|x xs IH]; intros ids Hnull; simpl.
  - by intros [= <-].
  - destruct (castObjectId L x) as [y|] eqn:Hx; [|done].
    destruct (castAll (castObjectId L) xs) as [ys|]; [|done].
    intros [= <-].
    rewrite (IH ys) by (done || by intros ?; apply Hnull, list_elem_of_further).
    assert (castIn L x = Some (Some y)) as ->; [|done].
    destruct x; simpl; rewrite ?Hx; try done.
    destruct Hnull. apply list_elem_of_here.
Qed.

(** The write of a create, run inside the handler's [try]. *)
Lemma saveMeeting_run a b st :
  tryCatch (saveMeeting L a b) internalError st =
  match newMeeting L a b with
  | None => (Ok (internalError ValidationError), st)
  | Some m =>
      match meetings st !! generatedId a with
      | Some _ => (Ok (internalError (MongoServerError 11000%N)), st)
      | None =>
          let st' := mkStore (users st) (<[generatedId a := m]> (meetings st)) in
          (Ok (mkResponse 201 (MeetingDoc (Some (populateIn st' (generatedId a, m))))), st')
      end
  end.
Proof.
  unfold tryCatch, saveMeeting, Meeting_save, Meeting_findById_oid, populate,
    bind, ret, throw, getStore, putStore.
  destruct (newMeeting L a b) as [m|]; [|done].
  destruct (meetings st !! generatedId a) eqn:Hid; [done|].
  simpl. by rewrite lookup_insert_eq.
Qed.

(** The write of an update, run inside the handler's [try]. *)
Lemma updateMeeting_run a id b st :
  tryCatch (updateMeeting L a id b) internalError st =
  match castObjectId L (JStr id) with
  | None => (Ok (internalError (CastError "_id")), st)
  | Some o =>
      match castUpdate L b with
      | None => (Ok (internalError ValidationError), st)
      | Some u =>
          match meetings st !! o with
          | None => (Ok (mkResponse 404 (ErrorMessage "Meeting not found")), st)
          | Some old =>
              let m := applyUpdate u (now a) old in
              let st' := mkStore (users st) (<[o := m]> (meetings st)) in
              (Ok (mkResponse 200 (MeetingDoc (Some (populateIn st' (o, m))))), st')
          end
      end
  end.
Proof.
  unfold tryCatch, updateMeeting, Meeting_findByIdAndUpdate, castId, populate,
    bind, ret, throw, getStore, putStore.
  destruct (castObjectId L (JStr id)) as [o|]; [|done].
  destruct (castUpdate L b) as [u|]; [|done].
  by destruct (meetings st !! o).
Qed.

(** A rejection by the checks is always a 400. *)
Lemma referentialChecks_rejected b st r :
  referentialChecks L b st = Rejected r → status r = 400.
Proof.
  unfold referentialChecks. intros H.
  repeat case_match; by simplify_eq/=.
Qed.

(** The application on the two write routes. *)
Lemma handle_post_meeting a b st :
  handle L a (mkRequest POST ["api"; "meetings"] b) st =
  match behindChecks L b (saveMeeting L a b) st with
  | (Ok res, st') => (res, st')
  | (Throw _, st') => (mkResponse 500 (ErrorMessage "Something went wrong!"), st')
  end.
Proof. unfold handle. simpl. by rewrite postMeeting_behindChecks. Qed.

Lemma handle_put_meeting a id b st :
  handle L a (mkRequest PUT ["api"; "meetings"; id] b) st =
  match behindChecks L b (updateMeeting L a id b) st with
  | (Ok res, st') => (res, st')
  | (Throw _, st') => (mkResponse 500 (ErrorMessage "Something went wrong!"), st')
  end.
Proof. unfold handle. simpl. by rewrite putMeeting_behindChecks. Qed.

End Calls.

(** ** Conditions on a meeting payload *)

Section Conditions.

Context (L : Library).

Lemma dateGe_true x y :
  dateGe x y = true ↔ ∃ s e, x = Some s ∧ y = Some e ∧ (e ≤ s)%Z.
Proof.
  unfold dateGe. destruct x as [s|], y as [e|]; simpl.
  - rewrite bool_decide_eq_true. split; [eauto|]. by intros (? & ? & [= <-] & [= <-] & ?).
  - split; [done|]. by intros (? & ? & _ & ? & _).
  - split; [done|]. by intros (? & ? & ? & _).
  - split; [done|]. by intros (? & ? & ? & _).
Qed.

Lemma datesOutOfOrder_dateGe b :
  datesOutOfOrder L b ↔
  dateGe (newDate L (prop b "startDate")) (newDate L (prop b "endDate")) = true.
Proof. by rewrite dateGe_true. Qed.

Lemma referentialChecks_dates b st :
  datesOutOfOrder L b →
  referentialChecks L b st =
    Rejected (mkResponse 400 (ErrorMessage "Start date must be before end date")).
Proof.
  intros H%datesOutOfOrder_dateGe. unfold referentialChecks. by rewrite H.
Qed.

Lemma referentialChecks_organizer b st :
  ¬ datesOutOfOrder L b → organizerAbsent L b st →
  referentialChecks L b st =
    Rejected (mkResponse 400 (ErrorMessage "Organizer not found")).
Proof.
  rewrite datesOutOfOrder_dateGe. intros Hd%not_true_is_false (j & o & Hj & Ho & Hu).
  unfold referentialChecks. rewrite Hd, Hj, (User_findById_cast L j o) by done.
  by rewrite Hu.
Qed.

(** With an attendee list that the [$in] cast accepts, the third check
    passes exactly when no entry is [null] and the ids are distinct ids of
    users. *)
Lemma referentialChecks_attendees b st x xs ids :
  ¬ datesOutOfOrder L b → organizerPresent L b st →
  prop b "attendees" = Some (JArr (x :: xs)) →
  castAll (castIn L) (x :: xs) = Some ids →
  referentialChecks L b st =
    if decide (ids = Some <$> omap id ids ∧ NoDup (omap id ids) ∧
               Forall (λ o, is_Some (users st !! o)) (omap id ids))
    then Passed
    else Rejected (mkResponse 400 (ErrorMessage "One or more attendees not found")).
Proof.
  rewrite datesOutOfOrder_dateGe.
  intros Hd%not_true_is_false (j & o & Hj & Ho & [u Hu]) Hats Hids.
  unfold referentialChecks.
  rewrite Hd, Hj, (User_findById_cast L j o), Hu, Hats by done.
  cbn [attendeesGiven fmap option_fmap option_map].
  rewrite (User_countDocuments_in_cast L _ ids) by done.
  rewrite <- (castAll_length _ _ _ Hids).
  destruct (decide (length _ ≠ length ids)) as [Hne|Heq%dec_stable].
  - rewrite decide_False; [done|]. by rewrite Forall_forall, <- count_some_eq_length.
  - rewrite decide_True; [done|]. by rewrite Forall_forall, <- count_some_eq_length.
Qed.

(** What a pass of the three checks means. *)
Lemma referentialChecks_passed b st :
  validateMeeting L b = [] →
  referentialChecks L b st = Passed →
  ¬ datesOutOfOrder L b ∧ organizerPresent L b st ∧ attendeesPresent L b st.
Proof.
  intros Hv Hp.
  assert (Hd : ¬ datesOutOfOrder L b).
  { rewrite datesOutOfOrder_dateGe. intros Hd.
    unfold referentialChecks in Hp. by rewrite Hd in Hp. }
  assert (Ho : organizerPresent L b st).
  { pose proof Hd as Hd'. rewrite datesOutOfOrder_dateGe in Hd'.
    apply not_true_is_false in Hd'.
    unfold referentialChecks in Hp. rewrite Hd' in Hp.
    destruct (prop b "organizer") as [j|] eqn:Hj; [|done].
    destruct (castObjectId L j) as [o|] eqn:Hc.
    - rewrite (User_findById_cast L j o) in Hp by done.
      destruct (users st !! o) as [u|] eqn:Hu; [|done].
      exists j, o. eauto.
    - by rewrite User_findById_fail in Hp. }
  split; [done|]. split; [done|].
  intros xs Hxs. destruct xs as [|x xs].
  { split; [by intros ?%elem_of_nil|].
    exists []. split; [done|]. split; [constructor|]. by intros ? ?%elem_of_nil. }
  destruct (castAll (castIn L) (x :: xs)) as [ids|] eqn:Hids.
  - rewrite (referentialChecks_attendees b st x xs ids) in Hp by done.
    case_decide as Hok; [|done]. rewrite Forall_forall in Hok.
    destruct Hok as (Heq & Hnd & Hex). rewrite Heq in Hids.
    apply castIn_all_Some in Hids as [Hnull Hids].
    split; [done|]. by exists (omap id ids).
  - destruct Ho as (j & o & Hj & Hc & [u Hu]).
    rewrite datesOutOfOrder_dateGe in Hd. apply not_true_is_false in Hd.
    unfold referentialChecks in Hp.
    rewrite Hd, Hj, (User_findById_cast L j o), Hu, Hxs in Hp by done.
    cbn [attendeesGiven fmap option_fmap option_map] in Hp.
    by rewrite User_countDocuments_in_fail in Hp.
Qed.

(** Any of the four failures makes the handler answer 400 and leave the
    store as it was, whatever the write would have done. *)
Lemma behindChecks_rejected b write st :
  validateMeeting L b ≠ [] ∨ datesOutOfOrder L b ∨ organizerAbsent L b st ∨
    (organizerPresent L b st ∧ attendeeAbsent L b st) →
  ∃ res, behindChecks L b write st = (Ok res, st) ∧ status res = 400.
Proof.
  intros H. unfold behindChecks.
  destruct (validateMeeting L b) as [|err errs] eqn:Hv; [|eauto].
  destruct (dateGe (newDate L (prop b "startDate")) (newDate L (prop b "endDate")))
    eqn:Hge.
  { apply datesOutOfOrder_dateGe in Hge.
    rewrite referentialChecks_dates by done. eauto. }
  assert (Hd : ¬ datesOutOfOrder L b) by (rewrite datesOutOfOrder_dateGe; congruence).
  destruct H as [?|[?|[Ho|[Ho Ha]]]]; [done|done|..].
  { rewrite referentialChecks_organizer by done. eauto. }
  destruct Ha as (xs & ids & x & Hxs & Hids & Hx & Hu).
  destruct xs as [|x0 xs].
  { simpl in Hids. simplify_eq. by apply elem_of_nil in Hx. }
  destruct (castIn_of_castObjectId L _ _ Hids) as (ids2 & Hids2 & Hsame).
  rewrite (referentialChecks_attendees b st x0 xs ids2) by done.
  rewrite decide_False; [eauto|].
  intros (Heq & _ & Hall). rewrite Forall_forall in Hall.
  rewrite (Hsame _ Heq) in Hall.
  apply Hall in Hx as [? ?]. congruence.
Qed.



End Conditions.


(** ** Create: a rejected request persists nothing *)

Section Writes.

Context (L : Library).

Lemma behindChecks_400 b write st out :
  (∀ st res st', tryCatch write internalError st = (Ok res, st') →
                 status res = 400 → st' = st) →
  behindChecks L b write st = (Ok out.1, out.2) →
  status out.1 = 400 → out.2 = st.
Proof.
  intros Hw. unfold behindChecks.
  destruct (validateMeeting L b); [|by intros [= _ <-]].
  destruct (referentialChecks L b st) as [r|e|] eqn:Hc.
  - by intros [= _ <-].
  - by intros [= _ <-].
  - destruct out as [res st']. simpl. apply Hw.
Qed.

Lemma behindChecks_Ok b write st :
  ∃ res st', behindChecks L b write st = (Ok res, st').
Proof.
  unfold behindChecks, tryCatch.
  destruct (validateMeeting L b); [|eauto].
  destruct (referentialChecks L b st); [eauto|eauto|].
  destruct (write st) as [[]]; eauto.
Qed.

(** C4.  A [POST /api/meetings] answered with 400 leaves the store as it
    was, and each of the four failures the handler tests (a structural
    validation failure, [startDate >= endDate], an organizer that is no
    user, an attendee that is no user) is answered with 400. *)
Theorem create_rejected_persists_nothing a b st :
  let out := handle L a (POST_meetings b) st in
  (validateMeeting L b ≠ [] ∨ datesOutOfOrder L b ∨ organizerAbsent L b st ∨
     (organizerPresent L b st ∧ attendeeAbsent L b st) → status out.1 = 400) ∧
  (status out.1 = 400 → out.2 = st ∧ meetings out.2 = meetings st).
Proof.
  cbv zeta. unfold POST_meetings. rewrite handle_post_meeting. split.
  - intros H.
    destruct (behindChecks_rejected L b (saveMeeting L a b) st H) as (res & -> & ?).
    done.
  - destruct (behindChecks_Ok b (saveMeeting L a b) st) as (res & st' & Hb).
    rewrite Hb. simpl. intros H400.
    assert (st' = st); [|by subst].
    apply (behindChecks_400 b (saveMeeting L a b) st (res, st')); [|done|done].
    clear. intros st res st'. rewrite saveMeeting_run.
    repeat case_match; intros [= <- <-]; simpl; done.
Qed.

End Writes.

Lemma create_rejected_persists_nothing_witness :
  let b := Sample.standupBody [JStr Sample.janeId; JStr Sample.nobodyId] in
  let out := handle Reference.lib Sample.ambient (POST_meetings b) Sample.usersOnly in
  status out.1 = 400 ∧ out.2 = Sample.usersOnly.
Proof.
  cbv zeta.
  pose proof (create_rejected_persists_nothing Reference.lib Sample.ambient
                (Sample.standupBody [JStr Sample.janeId; JStr Sample.nobodyId])
                Sample.usersOnly) as [Hreject Hkeep].
  assert (H : status (handle Reference.lib Sample.ambient
                (POST_meetings (Sample.standupBody [JStr Sample.janeId; JStr Sample.nobodyId]))
                Sample.usersOnly).1 = 400).
  { apply Hreject. right. right. right. split.
    - exists (JStr Sample.johnId), (Sample.oid Sample.johnId).
      split; [vm_compute; reflexivity|]. split; [vm_compute; reflexivity|].
      exists Sample.john. vm_compute; reflexivity.
    - exists [JStr Sample.janeId; JStr Sample.nobodyId],
        [Sample.oid Sample.janeId; Sample.oid Sample.nobodyId], (Sample.oid Sample.nobodyId).
      split; [vm_compute; reflexivity|]. split; [vm_compute; reflexivity|].
      split; [|vm_compute; reflexivity].
      apply list_elem_of_further, list_elem_of_here. }
  split; [exact H|]. exact (proj1 (Hkeep H)).
Defined.

Section Ordering.

Context (L : Library).

Lemma behindChecks_out_of_order b write st :
  datesOutOfOrder L b →
  ∃ res, behindChecks L b write st = (Ok res, st) ∧ status res = 400 ∧
         (validateMeeting L b = [] →
          payload res = ErrorMessage "Start date must be before end date").
Proof.
  intros Hd. unfold behindChecks.
  destruct (validateMeeting L b) eqn:Hv.
  - rewrite referentialChecks_dates by done. eauto.
  - eexists. split; [done|]. split; [done|]. by intros.
Qed.

(** C5.  On create and on full update, with dates that parse: a success
    (201, 200) has [startDate < endDate]; with [startDate >= endDate],
    equality included, the answer is 400 and nothing is written, and behind
    the structural validation that 400 is the start-before-end error. *)
Theorem start_strictly_before_end a b st s e (r : Request) :
  r = POST_meetings b ∨ (∃ id, r = PUT_meeting id b) →
  newDate L (prop b "startDate") = Some s →
  newDate L (prop b "endDate") = Some e →
  let out := handle L a r st in
  (status out.1 = 201 ∨ status out.1 = 200 → (s < e)%Z) ∧
  ((e ≤ s)%Z →
     status out.1 = 400 ∧ out.2 = st ∧
     (validateMeeting L b = [] →
      payload out.1 = ErrorMessage "Start date must be before end date")).
Proof.
  intros Hr Hs He. cbv zeta.
  assert (Hge : (e ≤ s)%Z →
     status (handle L a r st).1 = 400 ∧ (handle L a r st).2 = st ∧
     (validateMeeting L b = [] →
      payload (handle L a r st).1 = ErrorMessage "Start date must be before end date")).
  { intros Hle.
    assert (Hd : datesOutOfOrder L b) by (exists s, e; done).
    destruct Hr as [->|[id ->]].
    - unfold POST_meetings. rewrite handle_post_meeting.
      destruct (behindChecks_out_of_order b (saveMeeting L a b) st Hd)
        as (res & -> & ? & ?). done.
    - unfold PUT_meeting. rewrite handle_put_meeting.
      destruct (behindChecks_out_of_order b (updateMeeting L a id b) st Hd)
        as (res & -> & ? & ?). done. }
  split; [|done].
  intros Hok. destruct (Z.lt_ge_cases s e) as [|Hle]; [done|].
  destruct (Hge Hle) as (H400 & _). rewrite H400 in Hok.
  destruct Hok; discriminate.
Qed.


End Ordering.

Lemma start_strictly_before_end_witness :
  let b := Sample.meetingBody "2024-02-01T09:00:00Z" "2024-02-01T09:00:00Z" Sample.johnId [] in
  let out := handle Reference.lib Sample.ambient (POST_meetings b) Sample.usersOnly in
  status out.1 = 400 ∧ out.2 = Sample.usersOnly ∧
  payload out.1 = ErrorMessage "Start date must be before end date".
Proof.
  cbv zeta.
  pose proof (start_strictly_before_end Reference.lib Sample.ambient
    (Sample.meetingBody "2024-02-01T09:00:00Z" "2024-02-01T09:00:00Z" Sample.johnId [])
    Sample.usersOnly 1706778000000%Z 1706778000000%Z
    (POST_meetings (Sample.meetingBody "2024-02-01T09:00:00Z" "2024-02-01T09:00:00Z" Sample.johnId []))
    (or_introl eq_refl)) as H.
  destruct H as [_ H]; [vm_compute; reflexivity|vm_compute; reflexivity|].
  destruct H as (H1 & H2 & H3); [lia|].
  split; [exact H1|]. split; [exact H2|]. apply H3. vm_compute. reflexivity.
Defined.



(** ** Reads and deletes by id *)

Section ById.

Context (L : Library).

Lemma handle_get_user a id st :
  handle L a (GET_user id) st =
  match castObjectId L (JStr id) with
  | None => (mkResponse 500 (ErrorThrown (CastError "_id")), st)
  | Some o =>
      match users st !! o with
      | None => (mkResponse 404 (ErrorMessage "User not found"), st)
      | Some u => (mkResponse 200 (UserDoc (o, u)), st)
      end
  end.
Proof.
  unfold handle, GET_user. simpl. unfold getUser, tryCatch, bind.
  destruct (castObjectId L (JStr id)) as [o|] eqn:Hc.
  - rewrite (User_findById_cast L _ o) by done. by destruct (users st !! o).
  - by rewrite User_findById_fail.
Qed.

Lemma handle_get_meeting_any a id b st :
  handle L a (mkRequest GET ["api"; "meetings"; id] b) st =
  match castObjectId L (JStr id) with
  | None => (mkResponse 500 (ErrorThrown (CastError "_id")), st)
  | Some o =>
      match meetings st !! o with
      | None => (mkResponse 404 (ErrorMessage "Meeting not found"), st)
      | Some m => (mkResponse 200 (MeetingDoc (Some (populateIn st (o, m)))), st)
      end
  end.
Proof.
  unfold handle. simpl. unfold getMeeting, tryCatch, bind.
  destruct (castObjectId L (JStr id)) as [o|] eqn:Hc.
  - rewrite (Meeting_findById_cast L _ o) by done. by destruct (meetings st !! o).
  - by rewrite Meeting_findById_fail.
Qed.

Lemma handle_get_meeting a id st :
  handle L a (GET_meeting id) st =
  match castObjectId L (JStr id) with
  | None => (mkResponse 500 (ErrorThrown (CastError "_id")), st)
  | Some o =>
      match meetings st !! o with
      | None => (mkResponse 404 (ErrorMessage "Meeting not found"), st)
      | Some m => (mkResponse 200 (MeetingDoc (Some (populateIn st (o, m)))), st)
      end
  end.
Proof. apply handle_get_meeting_any. Qed.

Lemma handle_delete_meeting a id st :
  handle L a (DELETE_meeting id) st =
  match castObjectId L (JStr id) with
  | None => (mkResponse 500 (ErrorThrown (CastError "_id")), st)
  | Some o =>
      match meetings st !! o with
      | None => (mkResponse 404 (ErrorMessage "Meeting not found"), st)
      | Some _ =>
          (mkResponse 200 (Message "Meeting deleted successfully"),
           mkStore (users st) (delete o (meetings st)))
      end
  end.
Proof.
  unfold handle, DELETE_meeting. simpl. change (param [id] 0) with id.
  unfold deleteMeeting, Meeting_findByIdAndDelete, tryCatch, castId, bind,
    ret, throw, getStore, putStore.
  destruct (castObjectId L (JStr id)) as [o|]; [|done].
  by destruct (meetings st !! o).
Qed.

(** C7.  [DELETE /api/meetings/:id] answers 200, with the confirmation
    message, exactly when a meeting with that id existed; after a 200 a GET
    of the same id answers 404 and so does a second DELETE. *)
Theorem delete_then_not_found a a' a'' id st :
  let out := handle L a (DELETE_meeting id) st in
  (status out.1 = 200 ↔
     ∃ o, castObjectId L (JStr id) = Some o ∧ is_Some (meetings st !! o)) ∧
  (status out.1 = 200 →
     payload out.1 = Message "Meeting deleted successfully" ∧
     status (handle L a' (GET_meeting id) out.2).1 = 404 ∧
     status (handle L a'' (DELETE_meeting id) out.2).1 = 404).
Proof.
  cbv zeta. rewrite (handle_delete_meeting a).
  destruct (castObjectId L (JStr id)) as [o|] eqn:Hc; simpl.
  - destruct (meetings st !! o) as [m|] eqn:Hm; simpl.
    + split; [split; eauto|]. intros _. split; [done|].
      rewrite handle_get_meeting, handle_delete_meeting, Hc. simpl.
      by rewrite lookup_delete_eq.
    + split; [|discriminate]. split; [discriminate|].
      intros (o' & [= <-] & [m Hm']). congruence.
  - split; [|discriminate]. split; [discriminate|]. by intros (o' & ? & _).
Qed.

(** C9.  On [GET /api/users/:id] and [GET /api/meetings/:id], an id that
    does not cast to an [ObjectId] is answered with 500, the lookup's cast
    error reported by the handler's [catch]; a 404 is answered only to an id
    that casts and matches no record. *)
Theorem invalid_id_is_500 a id st :
  (castObjectId L (JStr id) = None →
     handle L a (GET_user id) st =
       (mkResponse 500 (ErrorThrown (CastError "_id")), st) ∧
     handle L a (GET_meeting id) st =
       (mkResponse 500 (ErrorThrown (CastError "_id")), st)) ∧
  (status (handle L a (GET_user id) st).1 = 404 →
     ∃ o, castObjectId L (JStr id) = Some o ∧ users st !! o = None) ∧
  (status (handle L a (GET_meeting id) st).1 = 404 →
     ∃ o, castObjectId L (JStr id) = Some o ∧ meetings st !! o = None).
Proof.
  rewrite handle_get_user, handle_get_meeting.
  destruct (castObjectId L (JStr id)) as [o|] eqn:Hc.
  - split; [discriminate|]. split.
    + destruct (users st !! o) eqn:Hu; [discriminate|]. eauto.
    + destruct (meetings st !! o) eqn:Hm; [discriminate|]. eauto.
  - split; [done|]. split; discriminate.
Qed.

End ById.

Lemma delete_then_not_found_witness :
  let out := handle Reference.lib Sample.ambient
               (DELETE_meeting Sample.standupId) Sample.withStandup in
  status out.1 = 200 ∧
  payload out.1 = Message "Meeting deleted successfully" ∧
  status (handle Reference.lib Sample.ambient (GET_meeting Sample.standupId) out.2).1 = 404 ∧
  status (handle Reference.lib Sample.ambient (DELETE_meeting Sample.standupId) out.2).1 = 404.
Proof.
  cbv zeta.
  pose proof (delete_then_not_found Reference.lib Sample.ambient Sample.ambient
                Sample.ambient Sample.standupId Sample.withStandup) as [Hiff Hafter].
  assert (H : status (handle Reference.lib Sample.ambient
                (DELETE_meeting Sample.standupId) Sample.withStandup).1 = 200).
  { apply Hiff. exists (Sample.oid Sample.standupId).
    split; [vm_compute; reflexivity|]. exists Sample.standup. vm_compute; reflexivity. }
  split; [exact H|]. exact (Hafter H).
Defined.

Lemma invalid_id_is_500_witness :
  handle Reference.lib Sample.ambient (GET_user "42") Sample.withStandup =
    (mkResponse 500 (ErrorThrown (CastError "_id")), Sample.withStandup) ∧
  handle Reference.lib Sample.ambient (GET_meeting "42") Sample.withStandup =
    (mkResponse 500 (ErrorThrown (CastError "_id")), Sample.withStandup).
Proof.
  apply (proj1 (invalid_id_is_500 Reference.lib Sample.ambient "42" Sample.withStandup)).
  vm_compute. reflexivity.
Defined.

(** ** Sorted queries *)

#[global] Instance byStartDate_transitive : Transitive byStartDate.
Proof. unfold byStartDate. intros x y z ??. lia. Qed.

#[global] Instance byStartDate_total : Total byStartDate.
Proof. unfold byStartDate. intros x y. lia. Qed.

(** A filtered, sorted query returns each matching document once, in
    ascending order of [startDate]. *)
Lemma sorted_query (P : ObjectId * Meeting → Prop) `{!∀ x, Decision (P x)}
    (ms : gmap ObjectId Meeting) :
  let found := merge_sort byStartDate (filter P (map_to_list ms)) in
  NoDup found.*1 ∧
  (∀ o m, (o, m) ∈ found ↔ ms !! o = Some m ∧ P (o, m)) ∧
  StronglySorted byStartDate found.
Proof.
  cbv zeta.
  pose proof (merge_sort_Permutation byStartDate (filter P (map_to_list ms))) as Hperm.
  split; [|split].
  - rewrite Hperm. apply (sublist_NoDup _ (map_to_list ms).*1).
    + apply NoDup_fst_map_to_list.
    + apply fmap_sublist, sublist_filter.
  - intros o m. rewrite Hperm, list_elem_of_filter, elem_of_map_to_list. tauto.
  - apply StronglySorted_merge_sort; apply _.
Qed.

Lemma StronglySorted_take {A} (R : relation A) n (l : list A) :
  StronglySorted R l → StronglySorted R (take n l).
Proof.
  intros H. rewrite <- (take_drop n l) in H.
  by apply StronglySorted_app in H as (_ & ? & _).
Qed.

Section Listings.

Context (L : Library).

Lemma handle_get_user_meetings a userId st :
  handle L a (GET_user_meetings userId) st =
  match castObjectId L (JStr userId) with
  | None => (mkResponse 500 (ErrorThrown (CastError "_id")), st)
  | Some u =>
      match users st !! u with
      | None => (mkResponse 404 (ErrorMessage "User not found"), st)
      | Some _ =>
          (mkResponse 200
             (MeetingDocs
                (populateIn st <$>
                   merge_sort byStartDate (filter (involves u) (map_to_list (meetings st))))),
           st)
      end
  end.
Proof.
  unfold handle, GET_user_meetings. simpl. change (param [userId] 0) with userId.
  unfold getUserMeetings, tryCatch, bind.
  destruct (castObjectId L (JStr userId)) as [u|] eqn:Hc.
  - rewrite (User_findById_cast L _ u) by done.
    destruct (users st !! u); [|done]. simpl.
    unfold Meeting_find_byUser. by rewrite Hc.
  - by rewrite User_findById_fail.
Qed.

(** C6, as amended.  On [GET /api/users/:userId/meetings] with a user id
    that casts to an [ObjectId]: if no user has that id the answer is 404;
    otherwise it is 200 with the meetings that the user organizes or
    attends, each once, populated, in ascending order of [startDate].  A
    user id that does not cast is answered with 500. *)
Theorem user_meetings a userId st :
  let out := handle L a (GET_user_meetings userId) st in
  (castObjectId L (JStr userId) = None → status out.1 = 500) ∧
  (∀ u, castObjectId L (JStr userId) = Some u →
     (users st !! u = None →
        out = (mkResponse 404 (ErrorMessage "User not found"), st)) ∧
     (is_Some (users st !! u) →
        ∃ found,
          out = (mkResponse 200 (MeetingDocs (populateIn st <$> found)), st) ∧
          NoDup found.*1 ∧
          (∀ o m, (o, m) ∈ found ↔
                  meetings st !! o = Some m ∧ (organizer m = u ∨ u ∈ attendees m)) ∧
          StronglySorted byStartDate found)).
Proof.
  cbv zeta. rewrite handle_get_user_meetings. split.
  - by intros ->.
  - intros u ->. split.
    + by intros ->.
    + intros [usr ->]. eexists. split; [done|].
      apply (sorted_query (involves u)).
Qed.

(** The handler registered for [/api/meetings/upcoming], taken by itself:
    at most ten meetings, none starting before [now], in ascending order. *)
Lemma getUpcoming_spec a st :
  ∃ found,
    getUpcoming a st = (Ok (mkResponse 200 (MeetingDocs (populateIn st <$> found))), st) ∧
    length found ≤ 10 ∧
    (∀ x, x ∈ found → meetings st !! x.1 = Some x.2 ∧ (now a ≤ startDate x.2)%Z) ∧
    StronglySorted byStartDate found.
Proof.
  eexists. split; [reflexivity|].
  destruct (sorted_query (startsFrom (now a)) (meetings st)) as (_ & Hin & Hs).
  split; [|split].
  - rewrite length_take. lia.
  - intros [o m] Hx. apply subseteq_take in Hx. by apply Hin in Hx.
  - by apply StronglySorted_take.
Qed.

(** No request is ever dispatched to that handler. *)
Lemma upcoming_unreachable m p params :
  dispatch routes m p ≠ Some (GetUpcoming, params).
Proof.
  assert (Hshadow : ∀ q, matchPath [Lit "api"; Lit "meetings"; Param] p = None →
                         matchPath [Lit "api"; Lit "meetings"; Lit "upcoming"] p ≠ Some q).
  { intros q. destruct p as [|x1 [|x2 [|x3 [|x4 p]]]]; simpl;
      repeat case_decide; simpl; congruence. }
  unfold routes. cbn [dispatch].
  repeat case_decide; simplify_eq.
  all: repeat case_match; simplify_eq; try done.
  all: exfalso; by eapply Hshadow.
Qed.

(** C1.  Every [GET /api/meetings/upcoming] is taken by the route
    [/api/meetings/:id], registered before it, with [id = "upcoming"]; the
    lookup by that id fails to cast and the answer is 500, not the list of
    upcoming meetings. *)
Theorem upcoming_is_shadowed a (r : Request) st :
  method r = GET → path r = ["api"; "meetings"; "upcoming"] →
  castObjectId L (JStr "upcoming") = None →
  dispatch routes (method r) (path r) = Some (GetMeeting, ["upcoming"]) ∧
  handle L a r st = (mkResponse 500 (ErrorThrown (CastError "_id")), st).
Proof.
  destruct r as [m p b]. simpl. intros -> -> Hc. split; [reflexivity|].
  rewrite handle_get_meeting_any. by rewrite Hc.
Qed.

End Listings.

Lemma upcoming_is_shadowed_witness :
  handle Reference.lib Sample.ambient GET_upcoming Sample.withStandup =
    (mkResponse 500 (ErrorThrown (CastError "_id")), Sample.withStandup).
Proof.
  apply (upcoming_is_shadowed Reference.lib Sample.ambient GET_upcoming
           Sample.withStandup eq_refl eq_refl).
  vm_compute. reflexivity.
Defined.

(** C6, as stated, fails on a user id that is no [ObjectId]: no user has
    the id ["abc"], and the answer is the 500 of the failed cast, not 404. *)
Lemma user_meetings_counterexample :
  castObjectId Reference.lib (JStr "abc") = None ∧
  handle Reference.lib Sample.ambient (GET_user_meetings "abc") Sample.withStandup =
    (mkResponse 500 (ErrorThrown (CastError "_id")), Sample.withStandup) ∧
  status (handle Reference.lib Sample.ambient
            (GET_user_meetings "abc") Sample.withStandup).1 ≠ 404.
Proof.
  split; [|split].
  - vm_compute. reflexivity.
  - vm_compute. reflexivity.
  - vm_compute. discriminate.
Qed.

Lemma user_meetings_witness :
  ∃ found,
    handle Reference.lib Sample.ambient
      (GET_user_meetings Sample.janeId) Sample.withStandup =
      (mkResponse 200 (MeetingDocs (populateIn Sample.withStandup <$> found)),
       Sample.withStandup) ∧
    NoDup found.*1 ∧
    (∀ o m, (o, m) ∈ found ↔
            meetings Sample.withStandup !! o = Some m ∧
            (organizer m = Sample.oid Sample.janeId ∨
             Sample.oid Sample.janeId ∈ attendees m)) ∧
    StronglySorted byStartDate found.
Proof.
  apply (proj2 (user_meetings Reference.lib Sample.ambient Sample.janeId
                  Sample.withStandup) (Sample.oid Sample.janeId)).
  - vm_compute. reflexivity.
  - exists Sample.jane. vm_compute. reflexivity.
Defined.

(** ** Validation of [attendees] *)

Section Attendees.

Context (L : Library).

Lemma check_field ok field msg e :
  e ∈ check ok field msg → e.1 = field.
Proof. unfold check. destruct ok; [by intros ?%elem_of_nil|]. by intros ->%list_elem_of_singleton. Qed.

Lemma handle_invalid_body a r b st :
  r = POST_meetings b ∨ (∃ id, r = PUT_meeting id b) →
  validateMeeting L b ≠ [] →
  handle L a r st = (mkResponse 400 (FieldErrors (validateMeeting L b)), st).
Proof.
  intros [->|[id ->]] Hv.
  - unfold POST_meetings. rewrite handle_post_meeting. unfold behindChecks.
    by destruct (validateMeeting L b).
  - unfold PUT_meeting. rewrite handle_put_meeting. unfold behindChecks.
    by destruct (validateMeeting L b).
Qed.

(** C3, as amended.  When [attendees] is present, structural validation
    checks only that it is an array.  A value that is not an array is
    rejected with the field-level failure for [attendees], a 400 that
    leaves the store alone; an array records no failure for [attendees]
    whatever its elements, and the errors recorded for the payload do not
    depend on them. *)
Theorem attendees_validated_as_array_only a id b v st :
  prop b "attendees" = Some v →
  (isArray v = false →
     ("attendees", "Attendees must be an array") ∈ validateMeeting L b ∧
     handle L a (POST_meetings b) st =
       (mkResponse 400 (FieldErrors (validateMeeting L b)), st) ∧
     handle L a (PUT_meeting id b) st =
       (mkResponse 400 (FieldErrors (validateMeeting L b)), st)) ∧
  (isArray v = true →
     (∀ e, e ∈ validateMeeting L b → e.1 ≠ "attendees") ∧
     (∀ b' ys, (∀ k, k ≠ "attendees" → prop b' k = prop b k) →
               prop b' "attendees" = Some (JArr ys) →
               validateMeeting L b' = validateMeeting L b)).
Proof.
  intros Hv. split.
  - intros Harr.
    assert (Hin : ("attendees", "Attendees must be an array") ∈ validateMeeting L b).
    { unfold validateMeeting. rewrite Hv. simpl. rewrite Harr. simpl.
      rewrite !elem_of_app. do 4 right. apply list_elem_of_here. }
    assert (Hne : validateMeeting L b ≠ []).
    { intros Hnil. rewrite Hnil in Hin. by apply elem_of_nil in Hin. }
    split; [done|].
    split; apply handle_invalid_body; eauto.
  - intros Harr. split.
    + intros e. unfold validateMeeting. rewrite Hv. simpl. rewrite Harr. simpl.
      rewrite app_nil_r, !elem_of_app.
      intros [He|[He|[He|He]]]; apply check_field in He; by rewrite He.
    + intros b' ys Hsame Hys. unfold validateMeeting.
      rewrite Hv, Hys, !Hsame by done. simpl. by rewrite Harr.
Qed.

End Attendees.

Lemma attendees_validated_as_array_only_witness :
  let b := Sample.standupBody [JStr "not-an-id"; JNum 7] in
  (∀ e, e ∈ validateMeeting Reference.lib b → e.1 ≠ "attendees") ∧
  validateMeeting Reference.lib (Sample.standupBody []) =
  validateMeeting Reference.lib b.
Proof.
  cbv zeta.
  destruct (proj2 (attendees_validated_as_array_only Reference.lib Sample.ambient
                     Sample.standupId
                     (Sample.standupBody [JStr "not-an-id"; JNum 7])
                     (JArr [JStr "not-an-id"; JNum 7]) Sample.usersOnly eq_refl) eq_refl)
    as [Hnone Hsame].
  split; [exact Hnone|].
  apply (Hsame (Sample.standupBody []) []); [|reflexivity].
  intros k Hk. unfold Sample.standupBody, Sample.meetingBody. simpl.
  repeat (case_decide; [reflexivity|]). case_decide; [contradiction|reflexivity].
Defined.

(** C3, as stated, fails: a payload whose only defect is an attendee value
    that is no id passes the structural validation, reaches the store, and
    is answered with the 500 of the failed cast. *)
Lemma attendees_elements_counterexample :
  let b := Sample.standupBody [JStr "not-an-id"] in
  isMongoId Reference.lib (Some (JStr "not-an-id")) = false ∧
  castObjectId Reference.lib (JStr "not-an-id") = None ∧
  validateMeeting Reference.lib b = [] ∧
  handle Reference.lib Sample.ambient (POST_meetings b) Sample.usersOnly =
    (mkResponse 500 (ErrorThrown (CastError "_id")), Sample.usersOnly).
Proof. vm_compute. repeat split; reflexivity. Qed.

(** C2 at its failing input: both entries of [attendees] are the id of one
    existing user; one user matches the id set, as many as there are
    distinct ids, and the request is rejected all the same. *)
Theorem existing_duplicates_rejected :
  let xs := [JStr Sample.janeId; JStr Sample.janeId] in
  let ids := [Sample.oid Sample.janeId; Sample.oid Sample.janeId] in
  castAll (castObjectId Reference.lib) xs = Some ids ∧
  Forall (λ o, is_Some (users Sample.usersOnly !! o)) ids ∧
  User_countDocuments_in Reference.lib xs Sample.usersOnly = (Ok 1, Sample.usersOnly) ∧
  length (remove_dups ids) = 1 ∧
  handle Reference.lib Sample.ambient (POST_meetings (Sample.standupBody xs))
      Sample.usersOnly =
    (mkResponse 400 (ErrorMessage "One or more attendees not found"), Sample.usersOnly) ∧
  handle Reference.lib Sample.ambient
      (PUT_meeting Sample.standupId (Sample.standupBody xs)) Sample.withStandup =
    (mkResponse 400 (ErrorMessage "One or more attendees not found"), Sample.withStandup).
Proof.
  cbv zeta. split; [vm_compute; reflexivity|]. split.
  { repeat constructor; exists Sample.jane; vm_compute; reflexivity. }
  repeat split; vm_compute; reflexivity.
Qed.

(** ** Duplicate attendees *)

Section Duplicates.

Context (L : Library).

Lemma extrasOf_plain {A} (extras : Body → option (A → A)) b :
  extraKeys b = [] → extrasOf extras b = Some (λ x, x).
Proof. unfold extrasOf. by intros ->. Qed.

(** A body of schema paths only stores the attendees it lists. *)
Lemma newMeeting_attendees a b m :
  newMeeting L a b = Some m → extraKeys b = [] →
  match prop b "attendees" with
  | None => attendees m = []
  | Some j => castAttendees L j = Some (attendees m)
  end.
Proof.
  unfold newMeeting. intros H Hplain.
  rewrite (extrasOf_plain _ _ Hplain) in H.
  destruct (prop b "attendees"); simplify_option_eq; done.
Qed.

Lemma castUpdate_plain b u :
  castUpdate L b = Some u → extraKeys b = [] → others u = (λ x, x).
Proof.
  unfold castUpdate. intros H Hplain.
  rewrite (extrasOf_plain _ _ Hplain) in H. by simplify_option_eq.
Qed.

Lemma castUpdate_attendees b u :
  castUpdate L b = Some u →
  match prop b "attendees" with
  | None => setAttendees u = None
  | Some j => ∃ ats, castAttendees L j = Some ats ∧ setAttendees u = Some ats
  end.
Proof.
  unfold castUpdate, castSet. intros H.
  destruct (prop b "attendees"); simplify_option_eq; eauto.
Qed.










(** The handlers that only read. *)
Lemma reads_keep_store a b e params st :
  e ∈ [Health; GetUsers; GetUser; GetMeetings; GetMeeting; GetUserMeetings; GetUpcoming] →
  (endpoint L a b e params st).2 = st.
Proof.
  intros He.
  repeat (apply elem_of_cons in He as [->|He]); [..|by apply elem_of_nil in He];
    unfold endpoint, health, getUsers, getUser, getMeetings, getMeeting,
      getUserMeetings, getUpcoming, tryCatch, User_find_all, User_findById,
      Meeting_find_all, Meeting_findById, Meeting_findById_oid,
      Meeting_find_byUser, Meeting_find_upcoming, populate, populateAll,
      castId, bind, ret, throw, getStore;
    repeat case_match; by simplify_eq/=.
Qed.






End Duplicates.



(** * Further properties of the handlers *)

(** ** What a success of create and update means *)

Section Successes.

Context (L : Library).

(** The converse of [referentialChecks_passed]. *)
Lemma referentialChecks_pass b st :
  ¬ datesOutOfOrder L b → organizerPresent L b st → attendeesPresent L b st →
  referentialChecks L b st = Passed.
Proof.
  intros Hd Ho Ha.
  destruct (attendeesGiven (prop b "attendees")) as [ys|] eqn:Hg.
  - destruct (prop b "attendees") as [[| | | |[|x xs]|]|] eqn:Hxs; simplify_eq/=.
    destruct (Ha _ Hxs) as (Hnull & ids & Hids & Hnd & Hall).
    rewrite (referentialChecks_attendees L b st x xs (Some <$> ids))
      by (done || by apply castIn_no_null).
    rewrite decide_True; [done|]. rewrite omap_id_fmap_Some.
    by rewrite Forall_forall.
  - pose proof Hd as Hd'. rewrite datesOutOfOrder_dateGe in Hd'.
    apply not_true_is_false in Hd'.
    destruct Ho as (j & o & Hj & Hc & [u Hu]).
    unfold referentialChecks.
    by rewrite Hd', Hj, (User_findById_cast L j o), Hu, Hg.
Qed.

(** A 201 of [POST /api/meetings], taken apart. *)
Lemma create_201_inv a b st :
  status (handle L a (POST_meetings b) st).1 = 201 →
  validateMeeting L b = [] ∧ referentialChecks L b st = Passed ∧
  ∃ m, newMeeting L a b = Some m ∧ meetings st !! generatedId a = None ∧
       handle L a (POST_meetings b) st =
         (mkResponse 201
            (MeetingDoc (Some (populateIn
               (mkStore (users st) (<[generatedId a := m]> (meetings st)))
               (generatedId a, m)))),
          mkStore (users st) (<[generatedId a := m]> (meetings st))).
Proof.
  unfold POST_meetings. rewrite handle_post_meeting. unfold behindChecks.
  destruct (validateMeeting L b) eqn:Hv; [|simpl; discriminate].
  destruct (referentialChecks L b st) as [r|ex|] eqn:Hc.
  - apply referentialChecks_rejected in Hc. simpl. congruence.
  - simpl. discriminate.
  - rewrite saveMeeting_run.
    destruct (newMeeting L a b) as [m|]; [|simpl; discriminate].
    destruct (meetings st !! generatedId a) eqn:Hid; [simpl; discriminate|].
    intros _. split; [done|]. split; [done|]. by exists m.
Qed.

(** A 200 of [PUT /api/meetings/:id], taken apart. *)
Lemma update_200_inv a id b st :
  status (handle L a (PUT_meeting id b) st).1 = 200 →
  validateMeeting L b = [] ∧ referentialChecks L b st = Passed ∧
  ∃ o u old, castObjectId L (JStr id) = Some o ∧ castUpdate L b = Some u ∧
             meetings st !! o = Some old ∧
             handle L a (PUT_meeting id b) st =
               (mkResponse 200
                  (MeetingDoc (Some (populateIn
                     (mkStore (users st) (<[o := applyUpdate u (now a) old]> (meetings st)))
                     (o, applyUpdate u (now a) old)))),
                mkStore (users st) (<[o := applyUpdate u (now a) old]> (meetings st))).
Proof.
  unfold PUT_meeting. rewrite handle_put_meeting. unfold behindChecks.
  destruct (validateMeeting L b) eqn:Hv; [|simpl; discriminate].
  destruct (referentialChecks L b st) as [r|ex|] eqn:Hc.
  - apply referentialChecks_rejected in Hc. simpl. congruence.
  - simpl. discriminate.
  - rewrite updateMeeting_run.
    destruct (castObjectId L (JStr id)) as [o|]; [|simpl; discriminate].
    destruct (castUpdate L b) as [u|]; [|simpl; discriminate].
    destruct (meetings st !! o) as [old|] eqn:Hold; [|simpl; discriminate].
    intros _. split; [done|]. split; [done|]. by exists o, u, old.
Qed.

Lemma newMeeting_organizer a b m :
  newMeeting L a b = Some m →
  ∃ j, prop b "organizer" = Some j ∧ castObjectId L j = Some (organizer m).
Proof.
  unfold newMeeting, castRequired. intros H.
  destruct (prop b "organizer") as [[]|]; simplify_option_eq; eauto.
Qed.

(** A body of schema paths only is stamped with the time of the request. *)
Lemma newMeeting_stamps a b m :
  newMeeting L a b = Some m → extraKeys b = [] →
  createdAt m = now a ∧ updatedAt m = now a.
Proof.
  unfold newMeeting. intros H Hplain.
  rewrite (extrasOf_plain _ _ Hplain) in H. by simplify_option_eq.
Qed.

Lemma castUpdate_organizer b u :
  castUpdate L b = Some u →
  match prop b "organizer" with
  | None => setOrganizer u = None
  | Some j => ∃ o, castObjectId L j = Some o ∧ setOrganizer u = Some o
  end.
Proof.
  unfold castUpdate, castSet, castRequired. intros H.
  destruct (prop b "organizer") as [[]|]; simplify_option_eq; eauto.
Qed.

(** Populating ids that all exist drops none of them. *)
Lemma populate_all_present st (ids : list ObjectId) :
  (∀ x, x ∈ ids → is_Some (users st !! x)) →
  summaryId <$> omap (summary st) ids = ids.
Proof.
  induction ids as [|x ids IH]; intros Hall; [done|].
  destruct (Hall x) as [u Hu]; [apply list_elem_of_here|].
  simpl. unfold summary at 1. rewrite Hu. simpl. f_equal.
  apply IH. intros y Hy. apply Hall. by apply list_elem_of_further.
Qed.

(** The attendees that pass the checks are the ones the schema stores. *)
Lemma passed_attendees_present b st j ats :
  validateMeeting L b = [] → attendeesPresent L b st →
  prop b "attendees" = Some j → castAttendees L j = Some ats →
  ∀ x, x ∈ ats → is_Some (users st !! x).
Proof.
  intros Hv Hp Hj Hats.
  destruct (validateMeeting_attendees L b Hv) as [Hnone|[xs Hxs]]; [congruence|].
  destruct (Hp xs Hxs) as (_ & ids & Hids & _ & Hall).
  rewrite Hj in Hxs. simplify_eq. simpl in Hats.
  assert (ids = ats) as -> by congruence. done.
Qed.

(** Each populated entry is the summary of the user it names. *)
Lemma populate_summaries st (ids : list ObjectId) s :
  s ∈ omap (summary st) ids →
  ∃ v, users st !! summaryId s = Some v ∧
       s = mkSummary (summaryId s) (name v) (email v).
Proof.
  rewrite list_elem_of_omap. intros (x & _ & Hs). unfold summary in Hs.
  destruct (users st !! x) as [v|] eqn:Hv; simplify_eq/=. eauto.
Qed.

(** X1.  A create whose body carries top-level paths of the schema only,
    whose payload passes the structural validation and the three checks,
    whose fields the schema casts, and whose new id is free, is answered
    201: the meeting is stored under the new id, stamped with the time of
    the request, and nothing else changes, and the response embeds a
    summary for the organizer and for every attendee rather than bare
    ids. *)
Theorem create_succeeds a b st m :
  extraKeys b = [] →
  validateMeeting L b = [] → ¬ datesOutOfOrder L b →
  organizerPresent L b st → attendeesPresent L b st →
  newMeeting L a b = Some m → meetings st !! generatedId a = None →
  let out := handle L a (POST_meetings b) st in
  ∃ u ats,
    users st !! organizer m = Some u ∧
    out.1 = mkResponse 201
              (MeetingDoc (Some (mkPopulated (generatedId a) m
                 (Some (mkSummary (organizer m) (name u) (email u))) ats))) ∧
    summaryId <$> ats = attendees m ∧
    (∀ s, s ∈ ats → ∃ v, users st !! summaryId s = Some v ∧
                          s = mkSummary (summaryId s) (name v) (email v)) ∧
    createdAt m = now a ∧ updatedAt m = now a ∧
    meetings out.2 = <[generatedId a := m]> (meetings st) ∧
    users out.2 = users st.
Proof.
  intros Hplain Hv Hd Ho Ha Hm Hfresh. cbv zeta.
  unfold POST_meetings. rewrite handle_post_meeting. unfold behindChecks.
  rewrite Hv, referentialChecks_pass, saveMeeting_run, Hm, Hfresh by done.
  cbv zeta. unfold populateIn. simpl.
  destruct (newMeeting_organizer a b m Hm) as (j & Hj & Hc).
  destruct (newMeeting_stamps a b m Hm Hplain) as [Hca Hua].
  destruct Ho as (j' & o & Hj' & Hc' & [u Hu]).
  assert (o = organizer m) as -> by congruence.
  set (st' := mkStore (users st) (<[generatedId a := m]> (meetings st))).
  exists u, (omap (summary st') (attendees m)).
  split; [done|]. split.
  { unfold summary at 1. simpl. by rewrite Hu. }
  split.
  { apply populate_all_present. simpl.
    pose proof (newMeeting_attendees L a b m Hm Hplain) as Hats.
    destruct (prop b "attendees") as [ja|] eqn:Hja.
    - by eapply passed_attendees_present.
    - rewrite Hats. by intros x ?%elem_of_nil. }
  split; [|done].
  intros s Hs. by apply (populate_summaries st') in Hs.
Qed.

(** X2.  Create, then read: after a 201 of [POST /api/meetings], a GET of
    the new id is answered 200 with the very document that the create
    returned. *)
Theorem create_then_get a a' b st s :
  let out := handle L a (POST_meetings b) st in
  status out.1 = 201 →
  castObjectId L (JStr s) = Some (generatedId a) →
  handle L a' (GET_meeting s) out.2 = (mkResponse 200 (payload out.1), out.2).
Proof.
  cbv zeta. intros H201 Hs.
  destruct (create_201_inv a b st H201) as (_ & _ & m & _ & _ & ->).
  rewrite handle_get_meeting, Hs. simpl. by rewrite lookup_insert_eq.
Qed.

Lemma castUpdate_absent b u :
  castUpdate L b = Some u →
  (prop b "title" = None → setTitle u = None) ∧
  (prop b "description" = None → setDescription u = None) ∧
  (prop b "startDate" = None → setStartDate u = None) ∧
  (prop b "endDate" = None → setEndDate u = None) ∧
  (prop b "location" = None → setLocation u = None) ∧
  (prop b "organizer" = None → setOrganizer u = None) ∧
  (prop b "attendees" = None → setAttendees u = None).
Proof.
  unfold castUpdate, castSet. intros H.
  repeat split; intros Hp; rewrite Hp in H; by simplify_option_eq.
Qed.

(** X3.  A 200 of [PUT /api/meetings/:id] rewrites the addressed meeting in
    place: the id casts and the meeting existed, no other meeting and no
    user changes, and a GET of the same id returns the document of the
    response.  When the body carries top-level paths of the schema only,
    [createdAt] is kept, [updatedAt] is the time of the request, and every
    optional path that the body leaves out keeps its stored value. *)
Theorem update_in_place a a' id b st :
  let out := handle L a (PUT_meeting id b) st in
  status out.1 = 200 →
  ∃ o old m,
    castObjectId L (JStr id) = Some o ∧ meetings st !! o = Some old ∧
    meetings out.2 = <[o := m]> (meetings st) ∧ users out.2 = users st ∧
    (extraKeys b = [] →
       createdAt m = createdAt old ∧ updatedAt m = now a ∧
       (prop b "description" = None → description m = description old) ∧
       (prop b "location" = None → location m = location old) ∧
       (prop b "attendees" = None → attendees m = attendees old)) ∧
    handle L a' (GET_meeting id) out.2 = (mkResponse 200 (payload out.1), out.2).
Proof.
  cbv zeta. intros H200.
  destruct (update_200_inv a id b st H200)
    as (_ & _ & o & u & old & Ho & Hu & Hold & ->).
  destruct (castUpdate_absent b u Hu) as (_ & Hd & _ & _ & Hl & _ & Hat).
  exists o, old, (applyUpdate u (now a) old). simpl.
  do 4 (split; [done|]). split.
  - intros Hplain. unfold applyUpdate.
    rewrite (castUpdate_plain L b u Hu Hplain). simpl.
    do 2 (split; [done|]). split; [|split].
    + intros Hp. by rewrite (Hd Hp).
    + intros Hp. by rewrite (Hl Hp).
    + intros Hp. by rewrite (Hat Hp).
  - rewrite handle_get_meeting, Ho. simpl. by rewrite lookup_insert_eq.
Qed.

End Successes.

(** ** Users *)

Section Users.

Context (L : Library).

Lemma emailTaken_iff st e :
  emailTaken st e ↔ ∃ o u, users st !! o = Some u ∧ email u = e.
Proof.
  unfold emailTaken. rewrite Exists_exists. split.
  - intros ([o u] & Hin & He). apply elem_of_map_to_list in Hin. eauto.
  - intros (o & u & Hu & He). exists (o, u). split; [|done].
    by apply elem_of_map_to_list.
Qed.

(** [app.post('/api/users')], run. *)
Lemma postUser_run a b st :
  postUser L a b st =
  match validateUser L b with
  | [] =>
      match newUser L a b with
      | None => (Ok (internalError ValidationError), st)
      | Some u =>
          if decide (is_Some (users st !! generatedId a) ∨ emailTaken st (email u))
          then (Ok (mkResponse 400 (ErrorMessage "Email already exists")), st)
          else (Ok (mkResponse 201 (UserDoc (generatedId a, u))),
                mkStore (<[generatedId a := u]> (users st)) (meetings st))
      end
  | _ :: _ => (Ok (mkResponse 400 (FieldErrors (validateUser L b))), st)
  end.
Proof.
  unfold postUser, handleValidationErrors, User_save, tryCatch, bind, ret,
    throw, getStore, putStore.
  destruct (validateUser L b); [|done].
  destruct (newUser L a b); [|done].
  by case_decide.
Qed.

Lemma handle_post_user a b st :
  handle L a (POST_users b) st =
  match postUser L a b st with
  | (Ok res, st') => (res, st')
  | (Throw _, st') => (mkResponse 500 (ErrorMessage "Something went wrong!"), st')
  end.
Proof. reflexivity. Qed.

(** The name and the address of the new user depend on the body alone. *)
Lemma newUser_ambient a a' b u :
  newUser L a b = Some u →
  ∃ u', newUser L a' b = Some u' ∧ name u' = name u ∧ email u' = email u.
Proof.
  unfold newUser. intros H.
  destruct (castRequired (castTrimmed L) (prop b "name") ≫= nonEmpty); [|done].
  simpl in *.
  destruct ((toLowerCase L <$> castRequired (castTrimmed L) (prop b "email")) ≫= nonEmpty);
    [|done].
  simpl in *.
  destruct (extrasOf (userExtras L) b) as [f|]; [|done].
  simpl in *. simplify_eq. eexists. by split.
Qed.

(** A body of schema paths only is stamped with the time of the request. *)
Lemma newUser_stamps a b u :
  newUser L a b = Some u → extraKeys b = [] →
  userCreatedAt u = now a ∧ userUpdatedAt u = now a.
Proof.
  unfold newUser. intros H Hplain.
  rewrite (extrasOf_plain _ _ Hplain) in H. by simplify_option_eq.
Qed.

(** X4.  [POST /api/users] behind the validation, for a body the schema
    casts to the user [u]: if a stored user already has the address of [u]
    the answer is 400 "Email already exists" and nothing changes; otherwise,
    with a free new id, the answer is 201, [u] is stored under the new id,
    the meetings and the other users are untouched, and a GET of the new id
    returns [u].  When the body carries top-level paths of the schema only,
    both timestamps of [u] are the time of the request. *)
Theorem user_create a a' b st u s :
  validateUser L b = [] → newUser L a b = Some u →
  let out := handle L a (POST_users b) st in
  ((∃ o v, users st !! o = Some v ∧ email v = email u) →
     out = (mkResponse 400 (ErrorMessage "Email already exists"), st)) ∧
  (¬ (∃ o v, users st !! o = Some v ∧ email v = email u) →
   users st !! generatedId a = None →
     out = (mkResponse 201 (UserDoc (generatedId a, u)),
            mkStore (<[generatedId a := u]> (users st)) (meetings st)) ∧
     (castObjectId L (JStr s) = Some (generatedId a) →
      handle L a' (GET_user s) out.2 =
        (mkResponse 200 (UserDoc (generatedId a, u)), out.2))) ∧
  (extraKeys b = [] → userCreatedAt u = now a ∧ userUpdatedAt u = now a).
Proof.
  intros Hv Hu. cbv zeta. rewrite handle_post_user, postUser_run, Hv, Hu.
  split; [|split].
  - intros Htaken%emailTaken_iff. rewrite decide_True; [done|]. by right.
  - intros Hfree Hid. rewrite decide_False.
    + split; [done|]. simpl.
      intros Hs. rewrite handle_get_user, Hs. simpl. by rewrite lookup_insert_eq.
    + rewrite emailTaken_iff. intros [[? ?]|?]; [congruence|done].
  - by apply newUser_stamps.
Qed.

(** X5.  Posting the same user twice: once a [POST /api/users] has been
    answered 201, the same body posted again, at any later time and with
    any new id, is answered 400 "Email already exists" and changes
    nothing. *)
Theorem user_create_twice a a' b st :
  let out := handle L a (POST_users b) st in
  status out.1 = 201 →
  handle L a' (POST_users b) out.2 =
    (mkResponse 400 (ErrorMessage "Email already exists"), out.2).
Proof.
  cbv zeta. rewrite !handle_post_user, !postUser_run.
  destruct (validateUser L b) eqn:Hv; [|simpl; discriminate].
  destruct (newUser L a b) as [u|] eqn:Hu; [|simpl; discriminate].
  destruct (newUser_ambient a a' b u Hu) as (u' & -> & _ & He).
  case_decide; [simpl; discriminate|]. intros _. simpl.
  rewrite decide_True; [done|]. right. apply emailTaken_iff. simpl.
  exists (generatedId a), u. by rewrite lookup_insert_eq.
Qed.

End Users.

(** ** What a request can do to the store *)

Section Effects.

Context (L : Library).

(** A request leaves the store as it was, or adds one user, or adds one
    meeting, or rewrites one meeting, or removes one meeting. *)
Lemma endpoint_effect a b e params st :
  let st' := (endpoint L a b e params st).2 in
  st' = st ∨
  (∃ u, newUser L a b = Some u ∧ users st !! generatedId a = None ∧
        ¬ emailTaken st (email u) ∧
        st' = mkStore (<[generatedId a := u]> (users st)) (meetings st)) ∨
  (validateMeeting L b = [] ∧ referentialChecks L b st = Passed ∧
   ((∃ m, newMeeting L a b = Some m ∧ meetings st !! generatedId a = None ∧
          st' = mkStore (users st) (<[generatedId a := m]> (meetings st))) ∨
    (∃ o u old, castUpdate L b = Some u ∧ meetings st !! o = Some old ∧
          st' = mkStore (users st) (<[o := applyUpdate u (now a) old]> (meetings st))))) ∨
  (∃ o, is_Some (meetings st !! o) ∧
        st' = mkStore (users st) (delete o (meetings st))).
Proof.
  cbv zeta.
  destruct e;
    try (left; apply reads_keep_store;
         solve [repeat first [apply list_elem_of_here | apply list_elem_of_further]]).
  - (* PostUser *)
    simpl. rewrite postUser_run.
    destruct (validateUser L b); [|by left].
    destruct (newUser L a b) as [u|] eqn:Hu; [|by left].
    case_decide as Hd; [by left|].
    right; left. exists u. simpl.
    split; [done|]. split; [|split; [tauto|done]].
    destruct (users st !! generatedId a) eqn:Hid; [|done].
    destruct Hd. left. eauto.
  - (* PostMeeting *)
    simpl. rewrite postMeeting_behindChecks. unfold behindChecks.
    destruct (validateMeeting L b) eqn:Hv; [|by left].
    destruct (referentialChecks L b st) eqn:Hc; [by left|by left|].
    rewrite saveMeeting_run.
    destruct (newMeeting L a b) as [m|] eqn:Hm; [|by left].
    destruct (meetings st !! generatedId a) eqn:Hid; [by left|].
    right; right; left. split; [done|]. split; [done|]. left. by exists m.
  - (* PutMeeting *)
    simpl. rewrite putMeeting_behindChecks. unfold behindChecks.
    destruct (validateMeeting L b) eqn:Hv; [|by left].
    destruct (referentialChecks L b st) eqn:Hc; [by left|by left|].
    rewrite updateMeeting_run.
    destruct (castObjectId L (JStr (param params 0))) as [o|]; [|by left].
    destruct (castUpdate L b) as [u|] eqn:Hu; [|by left].
    destruct (meetings st !! o) as [old|] eqn:Hold; [|by left].
    right; right; left. split; [done|]. split; [done|]. right. by exists o, u, old.
  - (* DeleteMeeting *)
    simpl.
    unfold deleteMeeting, Meeting_findByIdAndDelete, tryCatch, castId, bind,
      ret, throw, getStore, putStore.
    destruct (castObjectId L (JStr (param params 0))) as [o|]; [|by left].
    destruct (meetings st !! o) eqn:Hm; [|by left].
    right; right; right. exists o. simpl. eauto.
Qed.

Lemma handle_effect a r st :
  let st' := (handle L a r st).2 in
  st' = st ∨
  (∃ u, newUser L a (body r) = Some u ∧ users st !! generatedId a = None ∧
        ¬ emailTaken st (email u) ∧
        st' = mkStore (<[generatedId a := u]> (users st)) (meetings st)) ∨
  (validateMeeting L (body r) = [] ∧ referentialChecks L (body r) st = Passed ∧
   ((∃ m, newMeeting L a (body r) = Some m ∧ meetings st !! generatedId a = None ∧
          st' = mkStore (users st) (<[generatedId a := m]> (meetings st))) ∨
    (∃ o u old, castUpdate L (body r) = Some u ∧ meetings st !! o = Some old ∧
          st' = mkStore (users st) (<[o := applyUpdate u (now a) old]> (meetings st))))) ∨
  (∃ o, is_Some (meetings st !! o) ∧
        st' = mkStore (users st) (delete o (meetings st))).
Proof.
  cbv zeta. unfold handle.
  destruct (dispatch routes (method r) (path r)) as [[e params]|]; [|by left].
  pose proof (endpoint_effect a (body r) e params st) as H. cbv zeta in H.
  by destruct (endpoint L a (body r) e params st) as [[res|ex] st'].
Qed.

End Effects.

(** ** Invariants of the store *)

Section Invariants.

Context (L : Library).

Lemma handle_keeps_users a r st o u :
  users st !! o = Some u → users (handle L a r st).2 !! o = Some u.
Proof.
  intros Hu.
  destruct (handle_effect L a r st)
    as [->|[(v & _ & Hid & _ & ->)|[(_ & _ & [(m & _ & _ & ->)|(o' & w & old & _ & _ & ->)])
       |(o' & _ & ->)]]]; simpl; try done.
  rewrite lookup_insert_ne; [done|]. congruence.
Qed.

(** X6.  Users are never updated or deleted: a user that is stored stays
    stored, unchanged, whatever requests are served. *)
Theorem users_are_kept reqs st o u :
  users st !! o = Some u → users (serve L reqs st) !! o = Some u.
Proof.
  revert st. induction reqs as [|[a r] reqs IH]; intros st Hu; [done|].
  simpl. by apply IH, handle_keeps_users.
Qed.

Lemma handle_keeps_uniqueEmails a r st :
  uniqueEmails st → uniqueEmails (handle L a r st).2.
Proof.
  intros Hinv.
  destruct (handle_effect L a r st)
    as [->|[(v & _ & Hid & Hfree & ->)|[(_ & _ & [(m & _ & _ & ->)|(o' & w & old & _ & _ & ->)])
       |(o' & _ & ->)]]]; try done.
  intros o1 o2 u1 u2. simpl. rewrite !lookup_insert.
  rewrite emailTaken_iff in Hfree.
  repeat case_decide; intros H1 H2 He; simplify_eq; try done.
  - destruct Hfree. eauto.
  - destruct Hfree. eauto.
  - by eapply Hinv.
Qed.

(** X7.  No two stored users ever share an email address: every request
    keeps the addresses distinct, so they are distinct after any sequence of
    requests served from a store without users. *)
Theorem emails_stay_unique :
  (∀ reqs st, uniqueEmails st → uniqueEmails (serve L reqs st)) ∧
  (∀ reqs ms, uniqueEmails (serve L reqs (mkStore ∅ ms))).
Proof.
  assert (H : ∀ reqs st, uniqueEmails st → uniqueEmails (serve L reqs st)).
  { intros reqs. induction reqs as [|[a r] reqs IH]; intros st Hinv; [done|].
    simpl. by apply IH, handle_keeps_uniqueEmails. }
  split; [done|]. intros reqs ms. apply H. intros o1 o2 u1 u2. simpl.
  by rewrite lookup_empty.
Qed.

Lemma handle_keeps_references a r st :
  extraKeys (body r) = [] →
  referencesResolve st → referencesResolve (handle L a r st).2.
Proof.
  intros Hplain Hinv.
  destruct (handle_effect L a r st)
    as [->|[(v & _ & Hid & _ & ->)|[(Hv & Hp & [(m & Hm & _ & ->)|(o' & w & old & Hw & Hold & ->)])
       |(o' & _ & ->)]]]; try done.
  - (* a new user *)
    intros o m Hom. simpl in *. destruct (Hinv o m Hom) as [Horg Hats].
    split.
    + rewrite lookup_insert. case_decide; [by eexists|done].
    + intros x Hx. rewrite lookup_insert. case_decide; [by eexists|]. by apply Hats.
  - (* a new meeting *)
    apply referentialChecks_passed in Hp as (_ & Ho & Ha); [|done].
    intros o m'. simpl. rewrite lookup_insert. case_decide; [|by apply Hinv].
    intros [= <-]. split.
    + destruct (newMeeting_organizer L a (body r) m Hm) as (j & Hj & Hc).
      destruct Ho as (j' & o'' & Hj' & Hc' & Hu).
      by assert (organizer m = o'') as -> by congruence.
    + pose proof (newMeeting_attendees L a (body r) m Hm Hplain) as Hats.
      destruct (prop (body r) "attendees") as [ja|] eqn:Hja.
      * by eapply passed_attendees_present.
      * rewrite Hats. by intros x ?%elem_of_nil.
  - (* a rewritten meeting *)
    apply referentialChecks_passed in Hp as (_ & Ho & Ha); [|done].
    destruct (Hinv o' old Hold) as [Horg Hats].
    intros o m'. simpl. rewrite lookup_insert. case_decide; [|by apply Hinv].
    intros [= <-]. unfold applyUpdate.
    rewrite (castUpdate_plain L (body r) w Hw Hplain). simpl. split.
    + pose proof (castUpdate_organizer L (body r) w Hw) as Hset.
      destruct Ho as (j' & o'' & Hj' & Hc' & Hu). rewrite Hj' in Hset.
      destruct Hset as (o3 & Hc3 & ->). simpl. congruence.
    + pose proof (castUpdate_attendees L (body r) w Hw) as Hset.
      destruct (prop (body r) "attendees") as [ja|] eqn:Hja.
      * destruct Hset as (ats & Hcast & ->). simpl.
        by eapply passed_attendees_present.
      * by rewrite Hset.
  - (* a removed meeting *)
    intros o m. simpl. rewrite lookup_delete. case_decide; [done|]. apply Hinv.
Qed.

(** X8.  Referential integrity, for requests whose bodies carry top-level
    paths of the schemas only: if every stored meeting names an existing
    organizer and existing attendees, the same holds after any sequence of
    such requests; in particular after any such sequence served from a store
    without meetings.  In such a store, populating a meeting yields an
    organizer summary and one summary per attendee: nothing is null or
    dropped. *)
Theorem references_stay_resolved :
  (∀ reqs st, plainBodies reqs →
     referencesResolve st → referencesResolve (serve L reqs st)) ∧
  (∀ reqs us, plainBodies reqs → referencesResolve (serve L reqs (mkStore us ∅))) ∧
  (∀ st o m, referencesResolve st → meetings st !! o = Some m →
     is_Some (populatedOrganizer (populateIn st (o, m))) ∧
     summaryId <$> populatedAttendees (populateIn st (o, m)) = attendees m).
Proof.
  assert (H : ∀ reqs st, plainBodies reqs →
                referencesResolve st → referencesResolve (serve L reqs st)).
  { intros reqs. induction reqs as [|[a r] reqs IH]; intros st Hplain Hinv; [done|].
    apply Forall_cons in Hplain as [Hr Hplain].
    simpl. by apply IH, handle_keeps_references. }
  split; [done|]. split.
  - intros reqs us Hplain. apply H; [done|]. intros o m. simpl.
    by rewrite lookup_empty.
  - intros st o m Hinv Hm. destruct (Hinv o m Hm) as [[u Hu] Hats].
    unfold populateIn, summary. simpl. rewrite Hu. split; [by eexists|].
    by apply populate_all_present.
Qed.

End Invariants.

(** ** Reads *)

#[global] Instance byCreatedAtDesc_transitive : Transitive byCreatedAtDesc.
Proof. unfold byCreatedAtDesc. intros x y z ??. lia. Qed.

#[global] Instance byCreatedAtDesc_total : Total byCreatedAtDesc.
Proof. unfold byCreatedAtDesc. intros x y. lia. Qed.

(** A sorted listing of a collection has each document once, in order. *)
Lemma sorted_collection {A} (R : relation (ObjectId * A))
    `{!RelDecision R, !Transitive R, !Total R} (m : gmap ObjectId A) :
  let found := merge_sort R (map_to_list m) in
  NoDup found.*1 ∧
  (∀ o x, (o, x) ∈ found ↔ m !! o = Some x) ∧
  StronglySorted R found.
Proof.
  cbv zeta.
  pose proof (merge_sort_Permutation R (map_to_list m)) as Hperm.
  split; [|split].
  - rewrite Hperm. apply NoDup_fst_map_to_list.
  - intros o x. by rewrite Hperm, elem_of_map_to_list.
  - by apply StronglySorted_merge_sort.
Qed.

(** The routes that a GET can take only read. *)
Lemma dispatch_GET_reads p e params :
  dispatch routes GET p = Some (e, params) →
  e ∈ [Health; GetUsers; GetUser; GetMeetings; GetMeeting; GetUserMeetings; GetUpcoming].
Proof.
  unfold routes. cbn [dispatch].
  repeat case_decide; simplify_eq.
  repeat case_match; intros; simplify_eq;
    repeat first [apply list_elem_of_here | apply list_elem_of_further].
Qed.

Section Reads.

Context (L : Library).

(** X9.  A GET never writes: whatever its path, parameters and outcome
    (200, 404 or 500), the store after the request is the store before. *)
Theorem get_never_writes a (r : Request) st :
  method r = GET → (handle L a r st).2 = st.
Proof.
  intros Hm. unfold handle. rewrite Hm.
  destruct (dispatch routes GET (path r)) as [[e params]|] eqn:Hd; [|done].
  apply dispatch_GET_reads in Hd.
  pose proof (reads_keep_store L a (body r) e params st Hd) as H.
  by destruct (endpoint L a (body r) e params st) as [[res|ex] st'].
Qed.

(** X10.  [GET /api/users] answers 200 with every stored user, each once,
    most recently created first. *)
Theorem users_listing a st :
  ∃ us,
    handle L a GET_users st = (mkResponse 200 (UserDocs us), st) ∧
    NoDup us.*1 ∧
    (∀ o u, (o, u) ∈ us ↔ users st !! o = Some u) ∧
    StronglySorted (λ x y, (userCreatedAt y.2 ≤ userCreatedAt x.2)%Z) us.
Proof.
  eexists. split; [reflexivity|].
  apply (sorted_collection byCreatedAtDesc).
Qed.

(** X11.  [GET /api/meetings] answers 200 with every stored meeting, each
    once, populated, in ascending order of [startDate]. *)
Theorem meetings_listing a st :
  ∃ found,
    handle L a GET_meetings st =
      (mkResponse 200 (MeetingDocs (populateIn st <$> found)), st) ∧
    NoDup found.*1 ∧
    (∀ o m, (o, m) ∈ found ↔ meetings st !! o = Some m) ∧
    StronglySorted (λ x y, (startDate x.2 ≤ startDate y.2)%Z) found.
Proof.
  eexists. split; [reflexivity|].
  apply (sorted_collection byStartDate).
Qed.

(** X12.  The handler registered for [/api/meetings/upcoming] keeps the
    earliest meetings: a stored meeting that starts at [now] or later is in
    its answer, unless the answer already holds ten meetings that all start
    no later than it. *)
Theorem upcoming_keeps_earliest a st :
  ∃ found,
    getUpcoming a st =
      (Ok (mkResponse 200 (MeetingDocs (populateIn st <$> found))), st) ∧
    ∀ o m, meetings st !! o = Some m → (now a ≤ startDate m)%Z →
           (o, m) ∈ found ∨
           (length found = 10 ∧
            ∀ x, x ∈ found → (startDate x.2 ≤ startDate m)%Z).
Proof.
  eexists. split; [reflexivity|].
  set (sorted := merge_sort byStartDate
                   (filter (startsFrom (now a)) (map_to_list (meetings st)))).
  destruct (sorted_query (startsFrom (now a)) (meetings st)) as (_ & Hin & Hs).
  fold sorted in Hin, Hs.
  intros o m Hm Hnow.
  assert (Hom : (o, m) ∈ sorted) by (by apply Hin).
  rewrite <- (take_drop 10 sorted) in Hom, Hs.
  apply elem_of_app in Hom as [Htake|Hdrop]; [by left|]. right.
  apply StronglySorted_app in Hs as (Hle & _ & _).
  split.
  - rewrite length_take. apply Nat.min_l.
    destruct (decide (10 ≤ length sorted)) as [|Hlt]; [done|].
    rewrite drop_ge in Hdrop by lia. by apply elem_of_nil in Hdrop.
  - intros x Hx. by apply (Hle x (o, m)).
Qed.

End Reads.

(** ** Answers *)

Section Answers.

Context (L : Library).




End Answers.

(** ** Stored dates, deletion, and updates of absent meetings *)

Section Frames.

Context (L : Library).

Lemma newMeeting_dates a b m :
  newMeeting L a b = Some m →
  castRequired (castDate L) (prop b "startDate") = Some (startDate m) ∧
  castRequired (castDate L) (prop b "endDate") = Some (endDate m).
Proof.
  unfold newMeeting. intros H. by simplify_option_eq.
Qed.

Lemma castRequired_Some {A} (cast : json → option A) j x :
  castRequired cast (Some j) = Some x → cast j = Some x.
Proof. by destruct j. Qed.

Lemma castUpdate_dates b u j1 j2 :
  castUpdate L b = Some u →
  prop b "startDate" = Some j1 → prop b "endDate" = Some j2 →
  ∃ s e, setStartDate u = Some s ∧ setEndDate u = Some e ∧
         castDate L j1 = Some s ∧ castDate L j2 = Some e.
Proof.
  unfold castUpdate, castSet. intros H H1 H2. rewrite H1, H2 in H.
  destruct (castRequired (castDate L) (Some j1)) as [s|] eqn:Hs;
    [|by simplify_option_eq].
  destruct (castRequired (castDate L) (Some j2)) as [e|] eqn:He;
    [|by simplify_option_eq].
  apply castRequired_Some in Hs, He.
  exists s, e. by simplify_option_eq.
Qed.

Lemma passed_dates_in_order b st j1 j2 s e :
  validateMeeting L b = [] → referentialChecks L b st = Passed →
  prop b "startDate" = Some j1 → prop b "endDate" = Some j2 →
  castDate L j1 = newDate L (Some j1) → castDate L j2 = newDate L (Some j2) →
  castDate L j1 = Some s → castDate L j2 = Some e →
  (s < e)%Z.
Proof.
  intros Hv Hp H1 H2 Hc1 Hc2 Hs He.
  apply referentialChecks_passed in Hp as (Hd & _ & _); [|done].
  destruct (Z.lt_ge_cases s e) as [|Hle]; [done|].
  destruct Hd. exists s, e. rewrite H1, H2, <- Hc1, <- Hc2. done.
Qed.

(** X14.  Where the schema casts the two dates of the body to the time
    values that [new Date] gives them, a created meeting (201) and an
    updated meeting (200) is stored with [startDate] strictly before
    [endDate]. *)
Theorem stored_dates_in_order a b st j1 j2 :
  prop b "startDate" = Some j1 → prop b "endDate" = Some j2 →
  castDate L j1 = newDate L (Some j1) → castDate L j2 = newDate L (Some j2) →
  (status (handle L a (POST_meetings b) st).1 = 201 →
     ∃ m, meetings (handle L a (POST_meetings b) st).2 !! generatedId a = Some m ∧
          (startDate m < endDate m)%Z) ∧
  (∀ id o, status (handle L a (PUT_meeting id b) st).1 = 200 →
     castObjectId L (JStr id) = Some o →
     ∃ m, meetings (handle L a (PUT_meeting id b) st).2 !! o = Some m ∧
          (startDate m < endDate m)%Z).
Proof.
  intros H1 H2 Hc1 Hc2. split.
  - intros H201.
    destruct (create_201_inv L a b st H201) as (Hv & Hp & m & Hm & _ & ->).
    exists m. simpl. split; [by rewrite lookup_insert_eq|].
    destruct (newMeeting_dates a b m Hm) as [Hs He].
    rewrite H1 in Hs. rewrite H2 in He.
    apply castRequired_Some in Hs, He.
    by eapply (passed_dates_in_order b st j1 j2).
  - intros id o H200 Ho.
    destruct (update_200_inv L a id b st H200)
      as (Hv & Hp & o' & u & old & Ho' & Hu & Hold & ->).
    assert (o' = o) as -> by congruence.
    exists (applyUpdate u (now a) old). simpl.
    split; [by rewrite lookup_insert_eq|].
    destruct (castUpdate_dates b u j1 j2 Hu H1 H2) as (s & e & -> & -> & Hs & He).
    simpl. by eapply (passed_dates_in_order b st j1 j2).
Qed.

(** X15.  [DELETE /api/meetings/:id] removes the addressed meeting and
    nothing else: when it is not answered 200 the store is unchanged; when
    it is, the users are unchanged, exactly that meeting is gone, and a GET
    of any other meeting is answered as before. *)
Theorem delete_removes_only_that a a' id id' st :
  let out := handle L a (DELETE_meeting id) st in
  (status out.1 ≠ 200 → out.2 = st) ∧
  (status out.1 = 200 →
     users out.2 = users st ∧
     ∃ o, castObjectId L (JStr id) = Some o ∧
          meetings out.2 = delete o (meetings st) ∧
          (∀ o', castObjectId L (JStr id') = Some o' → o' ≠ o →
                 handle L a' (GET_meeting id') out.2 =
                   ((handle L a' (GET_meeting id') st).1, out.2))).
Proof.
  cbv zeta. rewrite handle_delete_meeting.
  destruct (castObjectId L (JStr id)) as [o|] eqn:Ho; [|by split].
  destruct (meetings st !! o) as [m|] eqn:Hm; [|by split].
  split; [done|]. intros _. simpl. split; [done|].
  exists o. split; [done|]. split; [done|].
  intros o' Ho' Hne. rewrite !handle_get_meeting, Ho'. simpl.
  rewrite lookup_delete_ne by done.
  by destruct (meetings st !! o').
Qed.

(** X16.  [PUT /api/meetings/:id] with a body that passes the validation
    and the three checks and that Mongoose casts to an update, whatever
    operators and dotted paths it carries beside the paths of the schema,
    for an id that casts and matches no meeting, is answered 404 "Meeting
    not found" and changes nothing: an update never creates a meeting. *)
Theorem update_of_absent_meeting a id b st o u :
  validateMeeting L b = [] → ¬ datesOutOfOrder L b →
  organizerPresent L b st → attendeesPresent L b st →
  castObjectId L (JStr id) = Some o → castUpdate L b = Some u →
  meetings st !! o = None →
  handle L a (PUT_meeting id b) st =
    (mkResponse 404 (ErrorMessage "Meeting not found"), st).
Proof.
  intros Hv Hd Ho Ha Hid Hu Hm.
  unfold PUT_meeting. rewrite handle_put_meeting. unfold behindChecks.
  by rewrite Hv, referentialChecks_pass, updateMeeting_run, Hid, Hu, Hm.
Qed.

End Frames.

(** ** Errors and frames *)

Lemma foldCase_api : foldCase "api" = "api".
Proof. reflexivity. Qed.

Lemma foldCase_meetings : foldCase "meetings" = "meetings".
Proof. reflexivity. Qed.

(** Only two routes write to a stored meeting, and they share their path. *)
Lemma routes_write m pat e :
  (m, pat, e) ∈ routes → e = PutMeeting ∨ e = DeleteMeeting →
  pat = [Lit "api"; Lit "meetings"; Param] ∧
  (m = PUT ∧ e = PutMeeting ∨ m = DELETE ∧ e = DeleteMeeting).
Proof.
  unfold routes. rewrite !elem_of_cons, elem_of_nil.
  intros Hin He.
  repeat (destruct Hin as [Hin|Hin]; [simplify_eq; destruct He; (done || tauto)|]).
  done.
Qed.

Lemma matchSent_meeting p captured :
  matchSent [Lit "api"; Lit "meetings"; Param] p = Some captured →
  ∃ s1 s2 x, p = [s1; s2; x] ∧ foldCase s1 = "api" ∧ foldCase s2 = "meetings" ∧
             captured = [x].
Proof.
  unfold matchSent. case_decide; [done|].
  destruct p as [|s1 [|s2 [|x [|? ?]]]]; simpl;
    rewrite ?foldCase_api, ?foldCase_meetings;
    repeat case_decide; simpl; intros; simplify_eq.
  by exists s1, s2, x.
Qed.

Lemma matchPath_params pat p params :
  matchPath pat p = Some params → params ⊆ p.
Proof.
  revert p params. induction pat as [|[s|] pat IH]; intros [|x p] params; simpl;
    try done.
  - by intros [= <-].
  - case_decide; [|done]. intros Hps%IH y Hy.
    by apply list_elem_of_further, Hps.
  - destruct (matchPath pat p) as [ps|] eqn:Hps; [|done].
    intros [= <-]. apply IH in Hps. intros y [->|Hy]%elem_of_cons.
    + apply list_elem_of_here.
    + by apply list_elem_of_further, Hps.
Qed.

Lemma castAll_fixed {A} (f : A → option A) (xs : list A) :
  Forall (λ x, f x = Some x) xs → castAll f xs = Some xs.
Proof.
  induction 1 as [|x xs Hx _ IH]; [done|]. simpl. by rewrite Hx, IH.
Qed.

Section Locality.

Context (L : Library).

Lemma endpoint_error_keeps_store a b e params st :
  ∃ res st', endpoint L a b e params st = (Ok res, st') ∧
             (st' = st ∨ status res = 200 ∨ status res = 201).
Proof.
  destruct e; simpl.
  - eexists _, _. split; [reflexivity|]. by left.
  - eexists _, _. split; [reflexivity|]. by left.
  - rewrite postUser_run. repeat case_match;
      (eexists _, _; split; [reflexivity|]; simpl; tauto).
  - unfold getUser, tryCatch, User_findById, castId, bind, ret, throw, getStore.
    repeat case_match; simplify_eq/=;
      (eexists _, _; split; [reflexivity|]; simpl; tauto).
  - eexists _, _. split; [reflexivity|]. by left.
  - unfold getMeeting, tryCatch, Meeting_findById, Meeting_findById_oid, populate,
      castId, bind, ret, throw, getStore.
    repeat case_match; simplify_eq/=;
      (eexists _, _; split; [reflexivity|]; simpl; tauto).
  - rewrite postMeeting_behindChecks. unfold behindChecks.
    destruct (validateMeeting L b);
      [|eexists _, _; split; [reflexivity|]; simpl; tauto].
    destruct (referentialChecks L b st) as [r|ex|] eqn:Hc;
      [eexists _, _; split; [reflexivity|]; simpl; tauto..|].
    rewrite saveMeeting_run. repeat case_match;
      (eexists _, _; split; [reflexivity|]; simpl; tauto).
  - rewrite putMeeting_behindChecks. unfold behindChecks.
    destruct (validateMeeting L b);
      [|eexists _, _; split; [reflexivity|]; simpl; tauto].
    destruct (referentialChecks L b st) as [r|ex|] eqn:Hc;
      [eexists _, _; split; [reflexivity|]; simpl; tauto..|].
    rewrite updateMeeting_run. repeat case_match;
      (eexists _, _; split; [reflexivity|]; simpl; tauto).
  - unfold deleteMeeting, Meeting_findByIdAndDelete, tryCatch, castId, bind,
      ret, throw, getStore, putStore.
    repeat case_match; simplify_eq/=;
      (eexists _, _; split; [reflexivity|]; simpl; tauto).
  - unfold getUserMeetings, tryCatch, User_findById, Meeting_find_byUser,
      populateAll, castId, bind, ret, throw, getStore.
    repeat case_match; simplify_eq/=;
      (eexists _, _; split; [reflexivity|]; simpl; tauto).
  - eexists _, _. split; [reflexivity|]. by left.
Qed.

(** X17.  A request that is answered 400 or 404 has changed nothing, on
    every route: all rejections and all not-found answers come before any
    write. *)
Theorem rejections_change_nothing a r st :
  status (handle L a r st).1 = 400 ∨ status (handle L a r st).1 = 404 →
  (handle L a r st).2 = st.
Proof.
  unfold handle.
  destruct (dispatch routes (method r) (path r)) as [[e params]|]; [|done].
  destruct (endpoint_error_keeps_store a (body r) e params st)
    as (res & st' & -> & [->|[H|H]]); simpl; [done|..];
    rewrite H; intros [?|?]; discriminate.
Qed.

Lemma endpoint_meeting_frame a b e params st o m :
  meetings st !! o = Some m →
  meetings (endpoint L a b e params st).2 !! o = Some m ∨
  ((e = PutMeeting ∨ e = DeleteMeeting) ∧
   castObjectId L (JStr (param params 0)) = Some o).
Proof.
  intros Hm.
  destruct e;
    try (left; rewrite reads_keep_store;
         [done|solve [repeat first [apply list_elem_of_here | apply list_elem_of_further]]]);
    simpl.
  - left. rewrite postUser_run. by repeat case_match.
  - left. rewrite postMeeting_behindChecks. unfold behindChecks.
    destruct (validateMeeting L b); [|done].
    destruct (referentialChecks L b st); [done|done|].
    rewrite saveMeeting_run.
    destruct (newMeeting L a b); [|done].
    destruct (meetings st !! generatedId a) eqn:Hid; [done|]. simpl.
    rewrite lookup_insert_ne; [done|]. congruence.
  - rewrite putMeeting_behindChecks. unfold behindChecks.
    destruct (validateMeeting L b); [|by left].
    destruct (referentialChecks L b st); [by left|by left|].
    rewrite updateMeeting_run.
    destruct (castObjectId L (JStr (param params 0))) as [o'|]; [|by left].
    destruct (castUpdate L b); [|by left].
    destruct (meetings st !! o') eqn:Ho'; [|by left]. simpl.
    destruct (decide (o' = o)) as [->|Hne]; [right; tauto|].
    left. by rewrite lookup_insert_ne.
  - unfold deleteMeeting, Meeting_findByIdAndDelete, tryCatch, castId, bind,
      ret, throw, getStore, putStore.
    destruct (castObjectId L (JStr (param params 0))) as [o'|]; [|by left].
    destruct (meetings st !! o') eqn:Ho'; [|by left]. simpl.
    destruct (decide (o' = o)) as [->|Hne]; [right; tauto|].
    left. by rewrite lookup_delete_ne.
Qed.

Lemma route_inv rs m p e params :
  route L rs m p = To e params →
  ∃ pat captured, (m, pat, e) ∈ rs ∧ matchSent pat p = Some captured ∧
                  castAll (decodeURIComponent L) captured = Some params.
Proof.
  induction rs as [|[[m' pat] e'] rs IH]; simpl; [done|].
  destruct (matchSent pat p) as [captured|] eqn:Hmatch.
  - destruct (castAll (decodeURIComponent L) captured) as [ps|] eqn:Hps; [|done].
    case_decide as Hm.
    + intros [= <- <-]. subst m'. exists pat, captured.
      split; [apply list_elem_of_here|done].
    + intros (pat' & c' & Hin & ?)%IH. exists pat', c'.
      split; [by apply list_elem_of_further|done].
  - intros (pat' & c' & Hin & ?)%IH. exists pat', c'.
    split; [by apply list_elem_of_further|done].
Qed.

(** On segments that are not empty and that decode to themselves, the
    routes send a request where [dispatch] does. *)
Lemma route_dispatch rs m p :
  Forall (λ s, s ≠ EmptyString ∧ decodeURIComponent L s = Some s) p →
  route L rs m p =
    match dispatch rs m p with
    | Some (e, params) => To e params
    | None => Unrouted
    end.
Proof.
  intros Hp. induction rs as [|[[m' pat] e'] rs IH]; simpl; [done|].
  unfold matchSent. rewrite decide_False.
  2:{ intros Hin. rewrite Forall_forall in Hp. by destruct (Hp _ Hin). }
  destruct (matchPath pat p) as [params|] eqn:Hmatch.
  - rewrite castAll_fixed.
    + by case_decide.
    + apply matchPath_params in Hmatch. rewrite Forall_forall in Hp |- *.
      intros x Hx. by destruct (Hp x (Hmatch x Hx)).
  - by case_decide.
Qed.

(** [handle] is the application on the requests of the methods above that
    pass [express.json()] and whose segments are not empty and decode to
    themselves. *)
Lemma app_handle a q m b st :
  verb q = Plain m → parsed q = Some b →
  Forall (λ s, s ≠ EmptyString ∧ decodeURIComponent L s = Some s) (segments q) →
  app L a q st = handle L a (mkRequest m (segments q) b) st.
Proof.
  intros Hv Hb Hp. unfold app, handle. rewrite Hv, Hb.
  cbn [routedAs method path body]. rewrite (route_dispatch _ _ _ Hp).
  destruct (dispatch routes m (segments q)) as [[e params]|]; [done|].
  rewrite castAll_fixed; [done|]. eapply Forall_impl; [done|]. by intros ? [_ ?].
Qed.

(** X18.  A stored meeting is changed or removed only by a PUT or a DELETE
    whose path is [/api/meetings/:id], in letters of either case, and whose
    id, decoded, casts to the id of that meeting; every other request that
    arrives leaves it stored as it was. *)
Theorem meeting_changes_only_when_addressed a (q : Arrival) st o m :
  meetings st !! o = Some m →
  meetings (app L a q st).2 !! o = Some m ∨
  ∃ s1 s2 x id,
    segments q = [s1; s2; x] ∧ foldCase s1 = "api" ∧ foldCase s2 = "meetings" ∧
    decodeURIComponent L x = Some id ∧ castObjectId L (JStr id) = Some o ∧
    (verb q = Plain PUT ∨ verb q = Plain DELETE).
Proof.
  intros Hm. unfold app.
  destruct (verb q) as [| |vm] eqn:Hverb; [by left| |];
    (destruct (parsed q) as [b|]; [|by left]);
    (destruct (route L routes _ (segments q)) as [e params| |] eqn:Hr;
      [|by left|by destruct (castAll _ (segments q)); left]);
    (pose proof (endpoint_meeting_frame a b e params st o m Hm) as [H|[He Ho]];
      [left; by destruct (endpoint L a b e params st) as [[res|ex] st']|]);
    right;
    destruct (route_inv _ _ _ _ _ Hr) as (pat & captured & Hin & Hmatch & Hdec);
    destruct (routes_write _ _ _ Hin He) as [-> Hmeth];
    destruct (matchSent_meeting _ _ Hmatch) as (s1 & s2 & x & Hp & H1 & H2 & ->);
    simpl in Hdec; destruct (decodeURIComponent L x) as [id|] eqn:Hid;
      simplify_eq/=.
  - destruct Hmeth as [[? ?]|[? ?]]; discriminate.
  - exists s1, s2, x, id. do 5 (split; [done|]).
    destruct Hmeth as [[-> _]|[-> _]]; tauto.
Qed.

End Locality.

(** ** The theorems above on the sample data *)

Lemma Sample_dates_in_order :
  ¬ datesOutOfOrder Reference.lib (Sample.standupBody [JStr Sample.janeId]).
Proof.
  intros (s & e & Hs & He & Hle). vm_compute in Hs, He.
  injection Hs as <-. injection He as <-. lia.
Qed.

Lemma Sample_organizer_present :
  organizerPresent Reference.lib (Sample.standupBody [JStr Sample.janeId])
    Sample.usersOnly.
Proof.
  exists (JStr Sample.johnId), (Sample.oid Sample.johnId).
  split; [vm_compute; reflexivity|]. split; [vm_compute; reflexivity|].
  exists Sample.john. vm_compute. reflexivity.
Qed.

Lemma Sample_attendees_present :
  attendeesPresent Reference.lib (Sample.standupBody [JStr Sample.janeId])
    Sample.usersOnly.
Proof.
  intros xs Hxs. vm_compute in Hxs. injection Hxs as <-.
  split; [by intros ?%list_elem_of_singleton|].
  exists [Sample.oid Sample.janeId].
  split; [vm_compute; reflexivity|]. split; [apply NoDup_singleton|].
  intros x ->%list_elem_of_singleton. exists Sample.jane. vm_compute. reflexivity.
Qed.

Lemma Sample_uniqueEmails : uniqueEmails Sample.usersOnly.
Proof.
  intros o1 o2 u1 u2. unfold Sample.usersOnly. simpl.
  rewrite !lookup_insert, !lookup_empty. intros Hu1 Hu2 He.
  repeat case_decide; simplify_eq; try done;
    vm_compute in He; discriminate.
Qed.

Lemma Sample_referencesResolve : referencesResolve Sample.withStandup.
Proof.
  intros o m. unfold Sample.withStandup. simpl.
  rewrite lookup_insert, lookup_empty. intros Hm.
  case_decide; [|done]. injection Hm as <-. split.
  - exists Sample.john. vm_compute. reflexivity.
  - intros x ->%list_elem_of_singleton. exists Sample.jane. vm_compute. reflexivity.
Qed.

Lemma create_succeeds_witness :
  let out := handle Reference.lib Sample.ambient
               (POST_meetings (Sample.standupBody [JStr Sample.janeId]))
               Sample.usersOnly in
  status out.1 = 201 ∧
  meetings out.2 = <[generatedId Sample.ambient := Scenario.createdStandup]> ∅.
Proof.
  cbv zeta.
  destruct (create_succeeds Reference.lib Sample.ambient
              (Sample.standupBody [JStr Sample.janeId]) Sample.usersOnly
              Scenario.createdStandup)
    as (u & ats & _ & Hres & _ & _ & _ & _ & Hms & _).
  - reflexivity.
  - vm_compute. reflexivity.
  - exact Sample_dates_in_order.
  - exact Sample_organizer_present.
  - exact Sample_attendees_present.
  - vm_compute. reflexivity.
  - vm_compute. reflexivity.
  - rewrite Hres, Hms. split; reflexivity.
Defined.

Lemma create_then_get_witness :
  let out := handle Reference.lib Sample.ambient
               (POST_meetings (Sample.standupBody [JStr Sample.janeId]))
               Sample.usersOnly in
  handle Reference.lib Sample.ambient (GET_meeting Scenario.createdId) out.2 =
    (mkResponse 200 (payload out.1), out.2).
Proof.
  cbv zeta.
  apply (create_then_get Reference.lib Sample.ambient Sample.ambient
           (Sample.standupBody [JStr Sample.janeId]) Sample.usersOnly
           Scenario.createdId).
  - vm_compute. reflexivity.
  - vm_compute. reflexivity.
Defined.

Lemma update_in_place_witness :
  let out := handle Reference.lib Sample.ambient
               (PUT_meeting Sample.standupId Scenario.reschedule)
               Sample.withStandup in
  ∃ o old m,
    castObjectId Reference.lib (JStr Sample.standupId) = Some o ∧
    meetings Sample.withStandup !! o = Some old ∧
    meetings out.2 = <[o := m]> (meetings Sample.withStandup) ∧
    users out.2 = users Sample.withStandup ∧
    (extraKeys Scenario.reschedule = [] →
       createdAt m = createdAt old ∧ updatedAt m = now Sample.ambient ∧
       (prop Scenario.reschedule "description" = None → description m = description old) ∧
       (prop Scenario.reschedule "location" = None → location m = location old) ∧
       (prop Scenario.reschedule "attendees" = None → attendees m = attendees old)) ∧
    handle Reference.lib Sample.ambient (GET_meeting Sample.standupId) out.2 =
      (mkResponse 200 (payload out.1), out.2).
Proof.
  cbv zeta.
  apply (update_in_place Reference.lib Sample.ambient Sample.ambient
           Sample.standupId Scenario.reschedule Sample.withStandup).
  vm_compute. reflexivity.
Defined.

Lemma user_create_witness :
  let out := handle Reference.lib Sample.ambient
               (POST_users Scenario.newUserBody) Sample.usersOnly in
  out = (mkResponse 201 (UserDoc (generatedId Sample.ambient, Scenario.ada)),
         mkStore (<[generatedId Sample.ambient := Scenario.ada]> (users Sample.usersOnly))
                 (meetings Sample.usersOnly)) ∧
  handle Reference.lib Sample.ambient (GET_user Scenario.createdId) out.2 =
    (mkResponse 200 (UserDoc (generatedId Sample.ambient, Scenario.ada)), out.2).
Proof.
  cbv zeta.
  destruct (user_create Reference.lib Sample.ambient Sample.ambient
              Scenario.newUserBody Sample.usersOnly Scenario.ada Scenario.createdId)
    as (_ & Hnew & _).
  - vm_compute. reflexivity.
  - vm_compute. reflexivity.
  - destruct Hnew as (Hout & Hget).
    + rewrite <- emailTaken_iff. apply (@bool_decide_eq_false_1 _ (emailTaken_dec _ _)).
      vm_compute. reflexivity.
    + vm_compute. reflexivity.
    + split; [exact Hout|]. apply Hget. vm_compute. reflexivity.
Defined.

Lemma user_create_twice_witness :
  let out := handle Reference.lib Sample.ambient
               (POST_users Scenario.newUserBody) Sample.usersOnly in
  handle Reference.lib Sample.ambient (POST_users Scenario.newUserBody) out.2 =
    (mkResponse 400 (ErrorMessage "Email already exists"), out.2).
Proof.
  cbv zeta.
  apply (user_create_twice Reference.lib Sample.ambient Sample.ambient
           Scenario.newUserBody Sample.usersOnly).
  vm_compute. reflexivity.
Defined.

Lemma users_are_kept_witness :
  users (serve Reference.lib Scenario.session Sample.withStandup)
    !! Sample.oid Sample.johnId = Some Sample.john.
Proof.
  apply (users_are_kept Reference.lib Scenario.session Sample.withStandup).
  vm_compute. reflexivity.
Defined.

Lemma emails_stay_unique_witness :
  uniqueEmails (serve Reference.lib Scenario.session Sample.usersOnly).
Proof.
  apply (proj1 (emails_stay_unique Reference.lib) Scenario.session Sample.usersOnly).
  exact Sample_uniqueEmails.
Defined.

Lemma references_stay_resolved_witness :
  referencesResolve (serve Reference.lib Scenario.session Sample.withStandup).
Proof.
  apply (proj1 (references_stay_resolved Reference.lib) Scenario.session
           Sample.withStandup).
  - unfold plainBodies, Scenario.session.
    repeat (apply Forall_cons; split; [vm_compute; reflexivity|]). constructor.
  - exact Sample_referencesResolve.
Defined.

Lemma get_never_writes_witness :
  (handle Reference.lib Sample.ambient (GET_user_meetings Sample.janeId)
     Sample.withStandup).2 = Sample.withStandup.
Proof.
  apply (get_never_writes Reference.lib Sample.ambient
           (GET_user_meetings Sample.janeId) Sample.withStandup).
  reflexivity.
Defined.

Lemma stored_dates_in_order_witness :
  ∃ m, meetings (handle Reference.lib Sample.ambient
                   (POST_meetings (Sample.standupBody [JStr Sample.janeId]))
                   Sample.usersOnly).2 !! generatedId Sample.ambient = Some m ∧
       (startDate m < endDate m)%Z.
Proof.
  apply (proj1 (stored_dates_in_order Reference.lib Sample.ambient
                  (Sample.standupBody [JStr Sample.janeId]) Sample.usersOnly
                  (JStr "2024-02-01T09:00:00Z") (JStr "2024-02-01T09:30:00Z")
                  eq_refl eq_refl eq_refl eq_refl)).
  vm_compute. reflexivity.
Defined.

Lemma delete_removes_only_that_witness :
  let out := handle Reference.lib Sample.ambient
               (DELETE_meeting Sample.standupId) Sample.withStandup in
  users out.2 = users Sample.withStandup ∧
  ∃ o, castObjectId Reference.lib (JStr Sample.standupId) = Some o ∧
       meetings out.2 = delete o (meetings Sample.withStandup) ∧
       (∀ o', castObjectId Reference.lib (JStr Sample.nobodyId) = Some o' → o' ≠ o →
              handle Reference.lib Sample.ambient (GET_meeting Sample.nobodyId) out.2 =
                ((handle Reference.lib Sample.ambient (GET_meeting Sample.nobodyId)
                    Sample.withStandup).1, out.2)).
Proof.
  cbv zeta.
  apply (proj2 (delete_removes_only_that Reference.lib Sample.ambient Sample.ambient
                  Sample.standupId Sample.nobodyId Sample.withStandup)).
  vm_compute. reflexivity.
Defined.

Lemma update_of_absent_meeting_witness :
  handle Reference.lib Sample.ambient
    (PUT_meeting Sample.nobodyId Scenario.reschedule) Sample.usersOnly =
  (mkResponse 404 (ErrorMessage "Meeting not found"), Sample.usersOnly).
Proof.
  apply (update_of_absent_meeting Reference.lib Sample.ambient Sample.nobodyId
           Scenario.reschedule Sample.usersOnly (Sample.oid Sample.nobodyId)
           Scenario.rescheduleUpdate).
  - vm_compute. reflexivity.
  - intros (s & e & Hs & He & Hle). vm_compute in Hs, He.
    injection Hs as <-. injection He as <-. lia.
  - exists (JStr Sample.johnId), (Sample.oid Sample.johnId).
    split; [vm_compute; reflexivity|]. split; [vm_compute; reflexivity|].
    exists Sample.john. vm_compute. reflexivity.
  - intros xs Hxs. vm_compute in Hxs. discriminate.
  - vm_compute. reflexivity.
  - vm_compute. reflexivity.
  - vm_compute. reflexivity.
Defined.

Lemma rejections_change_nothing_witness :
  (handle Reference.lib Sample.ambient
     (DELETE_meeting Sample.nobodyId) Sample.withStandup).2 = Sample.withStandup.
Proof.
  apply (rejections_change_nothing Reference.lib Sample.ambient
           (DELETE_meeting Sample.nobodyId) Sample.withStandup).
  right. vm_compute. reflexivity.
Defined.

Lemma meeting_changes_only_when_addressed_witness :
  let q := mkArrival (Plain POST) ["api"; "meetings"]
             (Some (Sample.standupBody [JStr Sample.janeId])) in
  meetings (app Reference.lib Sample.ambient q Sample.withStandup).2
    !! Sample.oid Sample.standupId = Some Sample.standup.
Proof.
  cbv zeta.
  destruct (meeting_changes_only_when_addressed Reference.lib Sample.ambient
              (mkArrival (Plain POST) ["api"; "meetings"]
                 (Some (Sample.standupBody [JStr Sample.janeId])))
              Sample.withStandup (Sample.oid Sample.standupId) Sample.standup)
    as [H|(s1 & s2 & x & id & Hp & _)].
  - vm_compute. reflexivity.
  - exact H.
  - discriminate Hp.
Defined.

(** The application on requests that [handle] does not cover: a path in
    capitals and with a final slash, a preflight, a body that is no JSON,
    parameters that do not decode, an empty segment, and [HEAD]. *)
Lemma app_on_samples :
  let app' := app Reference.lib Sample.ambient in
  let st := Sample.withStandup in
  app' (mkArrival (Plain DELETE) ["API"; "Meetings"; Sample.standupId] (Some [])) st =
    (mkResponse 200 (Message "Meeting deleted successfully"), Sample.usersOnly) ∧
  app' (mkArrival OPTIONS ["api"; "meetings"; Sample.standupId] (Some [])) st =
    (mkResponse 204 NoContent, st) ∧
  app' (mkArrival (Plain POST) ["api"; "users"] None) st =
    (mkResponse 500 (ErrorMessage "Something went wrong!"), st) ∧
  app' (mkArrival (Plain POST) ["api"; "users"; "%zz"] (Some [])) st =
    (mkResponse 500 (ErrorMessage "Something went wrong!"), st) ∧
  app' (mkArrival (Plain GET) ["nowhere"; "%zz"] (Some [])) st =
    (mkResponse 400 DefaultErrorPage, st) ∧
  app' (mkArrival (Plain GET) ["api"; EmptyString; "meetings"] (Some [])) st =
    (mkResponse 404 (ErrorMessage "Route not found"), st) ∧
  app' (mkArrival HEAD [] (Some [])) st =
    (mkResponse 200 (Message "Meetings API Service is running!"), st).
Proof. vm_compute. repeat split; reflexivity. Qed.
